(** * hello60: a LINE chat relay over Google Drive PDFs and Gemini

    Shallow embedding of [app.py] (one reference document) and
    [app2-multi-pdf.py] (three reference documents, chunked delivery),
    followed by the properties of the chunker, of the delivery protocol and
    of the error paths.

    Conventions of the embedding:
    - a Python [str] is the list of its Unicode code points, so that
      [length] is Python's [len] and slicing counts characters;
    - [bytes] and the contents of a [BytesIO] are lists of bytes;
    - every call that leaves the process (LINE, Drive, Gemini) is recorded
      as an event carrying its arguments and its outcome; the outcome is
      chosen by the [World], which sees the whole history of the request;
    - a computation is a function from the world and the history so far to
      a result (a value or a raised exception) and the events it issued;
    - only exceptions deriving from [Exception] are modelled, which is what
      the three SDKs raise; [logger] calls are left out, they neither fail
      nor influence control flow. *)

From Stdlib Require Import List Arith Lia Bool NArith.
From Stdlib.Strings Require Import Byte.
Import ListNotations.

Set Implicit Arguments.

(** ** Python values *)

Definition str := list N.
Definition bytes := list byte.

Module Py.

(** [len(range(start, stop, step))] for a positive [step]. *)
Definition range_len (start stop step : nat) : nat :=
  if start <? stop then (stop - start - 1) / step + 1 else 0.

(** [range(start, stop, step)] for a positive [step]. *)
Definition range (start stop step : nat) : list nat :=
  map (fun k => start + k * step) (seq 0 (range_len start stop step)).

(** [s[i:j]] for non-negative [i] and [j]; the bounds are clamped to the
    length of [s], and the slice is empty when [j <= i]. *)
Definition slice (A : Type) (s : list A) (i j : nat) : list A :=
  firstn (j - i) (skipn i s).

End Py.

(** ** Exceptions and results *)

Inductive ExcClass : Type :=
| InvalidSignatureError          (* linebot.exceptions *)
| TimeoutException               (* httpx, with its subclasses *)
| HTTPException (code : nat)     (* werkzeug, raised by flask.abort *)
| IndexError
| OtherException.

(** An exception instance: its class and [str(e)]. *)
Record Exc : Type := mkExc { exc_class : ExcClass; exc_str : str }.

Inductive Result (A : Type) : Type :=
| Ok (a : A)
| Raise (e : Exc).
Arguments Ok {A} a.
Arguments Raise {A} e.

Definition isInvalidSignatureError (e : Exc) : bool :=
  match exc_class e with InvalidSignatureError => true | _ => false end.

Definition isTimeoutException (e : Exc) : bool :=
  match exc_class e with TimeoutException => true | _ => false end.

(** [except Exception]: every modelled exception is an instance. *)
Definition isException (e : Exc) : bool := true.

(** ** Events, worlds and computations *)

(** A file uploaded to Gemini, as returned by [client.files.upload]. *)
Definition FileRef := N.

(** An element of [contents] in [generate_content], the query apart. *)
Inductive Part : Type :=
| PartBytes (data : bytes)       (* types.Part.from_bytes(data, 'application/pdf') *)
| PartFile (f : FileRef).

Inductive Event : Type :=
| PushMessage (to text : str) (r : Result unit)
| ReplyMessage (reply_token text : str) (r : Result unit)
| DriveDownload (file_id : str) (r : Result bytes)
| GeminiClient (r : Result unit)
| FilesUpload (data : bytes) (r : Result FileRef)
| GenerateContent (contents : list Part) (user_query : str) (r : Result str).

(** [event.source.user_id], [event.reply_token] and [event.message.text]
    of a [MessageEvent] whose message is a [TextMessage]. *)
Record MessageEvent : Type := mkMessageEvent {
  user_id : str;
  reply_token : str;
  text : str
}.

Inductive WebhookEvent : Type :=
| TextMessageEvent (event : MessageEvent)
| OtherEvent.

(** The outside of the process.  Each oracle receives the events of the
    request so far and the arguments of the call. *)
Record World : Type := mkWorld {
  line_push : list Event -> str -> str -> Result unit;
  line_reply : list Event -> str -> str -> Result unit;
  drive_download : list Event -> str -> Result bytes;
  gemini_client : list Event -> Result unit;
  gemini_upload : list Event -> bytes -> Result FileRef;
  gemini_generate : list Event -> list Part -> str -> Result str;
  signature_valid : str -> str -> bool;
  parse_events : str -> list WebhookEvent
}.

Definition M (A : Type) : Type := World -> list Event -> Result A * list Event.

Definition ret (A : Type) (a : A) : M A := fun _ _ => (Ok a, []).

Definition raise (A : Type) (e : Exc) : M A := fun _ _ => (Raise e, []).
Arguments raise {A} e.

Definition bind (A B : Type) (m : M A) (f : A -> M B) : M B :=
  fun w h =>
    match m w h with
    | (Ok a, es) => let (r, es') := f a w (h ++ es) in (r, es ++ es')
    | (Raise e, es) => (Raise e, es)
    end.

Notation "x <- m ;; k" := (bind m (fun x => k))
  (at level 61, m at next level, right associativity).
Notation "m ;; k" := (bind m (fun _ => k))
  (at level 61, right associativity).

(** [try: m  except C1: h1  except C2 as e: h2 ...]: the first clause whose
    class test accepts the exception handles it; with no such clause the
    exception goes on. *)
Fixpoint select_clause (A : Type) (clauses : list ((Exc -> bool) * (Exc -> M A)))
    (e : Exc) : M A :=
  match clauses with
  | [] => raise e
  | (accepts, handler) :: rest =>
      if accepts e then handler e else select_clause rest e
  end.

Definition try_ (A : Type) (m : M A)
    (clauses : list ((Exc -> bool) * (Exc -> M A))) : M A :=
  fun w h =>
    match m w h with
    | (Ok a, es) => (Ok a, es)
    | (Raise e, es) =>
        let (r, es') := select_clause clauses e w (h ++ es) in (r, es ++ es')
    end.

(** [for x in l: body(x)] *)
Fixpoint for_each (A : Type) (l : list A) (body : A -> M unit) : M unit :=
  match l with
  | [] => ret tt
  | x :: l' => body x ;; for_each l' body
  end.

Definition result (A : Type) (m : M A) (w : World) (h : list Event) : Result A :=
  fst (m w h).

Definition trace (A : Type) (m : M A) (w : World) (h : list Event) : list Event :=
  snd (m w h).

(** ** The SDK calls *)

(** [line_bot_api.push_message(to, TextSendMessage(text=text))] *)
Definition push_message (to text : str) : M unit :=
  fun w h => let r := line_push w h to text in (r, [PushMessage to text r]).

(** [line_bot_api.reply_message(reply_token, TextSendMessage(text=text))] *)
Definition reply_message (token text : str) : M unit :=
  fun w h => let r := line_reply w h token text in (r, [ReplyMessage token text r]).

(** The body of the [try] of [get_pdf_from_drive]: building the Drive
    client, [get_media] and the [next_chunk] loop until [done]. *)
Definition download_media (file_id : str) : M bytes :=
  fun w h => let r := drive_download w h file_id in (r, [DriveDownload file_id r]).

(** [genai.Client(api_key=GEMINI_API_KEY)] *)
Definition genai_Client : M unit :=
  fun w h => let r := gemini_client w h in (r, [GeminiClient r]).

(** [client.files.upload(file=data, config=dict(mime_type='application/pdf'))] *)
Definition files_upload (data : bytes) : M FileRef :=
  fun w h => let r := gemini_upload w h data in (r, [FilesUpload data r]).

(** [client.models.generate_content(model="gemini-2.0-flash",
    contents=contents + [user_query]).text] *)
Definition generate_content (contents : list Part) (user_query : str) : M str :=
  fun w h =>
    let r := gemini_generate w h contents user_query in
    (r, [GenerateContent contents user_query r]).

(** [flask.abort(code)] *)
Definition abort (code : nat) : M unit :=
  raise (mkExc (HTTPException code) []).

(** "Invalid signature. signature=" *)
Definition invalid_signature_text : str :=
  [73; 110; 118; 97; 108; 105; 100; 32; 115; 105; 103; 110; 97; 116; 117;
   114; 101; 46; 32; 115; 105; 103; 110; 97; 116; 117; 114; 101; 61]%N.

(** [WebhookHandler.handle(body, signature)] of the LINE SDK, with
    [on_text] registered by [@handler.add(MessageEvent, message=TextMessage)]:
    the parser rejects a body whose signature does not validate with
    [InvalidSignatureError]; otherwise every event of the payload is
    dispatched in order, text messages to [on_text], and an event with no
    registered handler is skipped. *)
Definition WebhookHandler_handle (on_text : MessageEvent -> M unit)
    (body signature : str) : M unit :=
  fun w h =>
    if signature_valid w body signature then
      for_each (parse_events w body)
        (fun ev => match ev with
                   | TextMessageEvent event => on_text event
                   | OtherEvent => ret tt
                   end) w h
    else (Raise (mkExc InvalidSignatureError (invalid_signature_text ++ signature)), []).

(** What Flask answers for a view function: its return value with status
    200, the status of an [HTTPException], 500 for any other exception. *)
Definition flask_status (A : Type) (r : Result A) : nat :=
  match r with
  | Ok _ => 200
  | Raise e => match exc_class e with HTTPException code => code | _ => 500 end
  end.

(** ** String literals shared by the two programs *)

(** "正在處理您的查詢，請稍候..." *)
Definition processing_text : str :=
  [27491; 22312; 34389; 29702; 24744; 30340; 26597; 35426; 65292; 35531;
   31245; 20505; 46; 46; 46]%N.

(** "處理您的查詢時發生錯誤: ", the prefix of the f-string returned by
    [process_with_gemini] on failure. *)
Definition query_error_prefix : str :=
  [34389; 29702; 24744; 30340; 26597; 35426; 26178; 30332; 29983; 37679;
   35492; 58; 32]%N.

(** "處理您的請求時發生錯誤: ", the prefix of the f-string replied by
    [handle_text_message] on failure. *)
Definition request_error_prefix : str :=
  [34389; 29702; 24744; 30340; 35531; 27714; 26178; 30332; 29983; 37679;
   35492; 58; 32]%N.

(** "OK" *)
Definition OK : str := [79; 75]%N.

(** [@app.route("/callback", methods=['POST'])], the same in both
    programs; [signature] is [request.headers['X-Line-Signature']] and
    [body] is [request.get_data(as_text=True)].  A request without the
    header fails on the first line of the function, before the part
    embedded here. *)
Definition callback_with (on_text : MessageEvent -> M unit)
    (body signature : str) : M str :=
  try_ (WebhookHandler_handle on_text body signature)
       [(isInvalidSignatureError, fun _ => abort 400)] ;;
  ret OK.

(** ** app.py *)

Module App.

Record Config : Type := mkConfig {
  GOOGLE_DRIVE_PDF_ID : str
}.

Definition get_pdf_from_drive (file_id : str) : M bytes :=
  try_ (download_media file_id)
       [(isException, fun e => raise e)].

Definition process_with_gemini (pdf_data : bytes) (user_query : str) : M str :=
  try_ (genai_Client ;;
        response_text <- generate_content [PartBytes pdf_data] user_query ;;
        ret response_text)
       [(isException, fun e => ret (query_error_prefix ++ exc_str e))].

Definition handle_text_message (cfg : Config) (event : MessageEvent) : M unit :=
  try_ (pdf_data <- get_pdf_from_drive (GOOGLE_DRIVE_PDF_ID cfg) ;;
        push_message (user_id event) processing_text ;;
        gemini_response <- process_with_gemini pdf_data (text event) ;;
        reply_message (reply_token event) gemini_response)
       [(isException,
         fun e => reply_message (reply_token event)
                    (request_error_prefix ++ exc_str e))].

Definition callback (cfg : Config) : str -> str -> M str :=
  callback_with (handle_text_message cfg).

End App.

(** ** app2-multi-pdf.py *)

Module App2.

Record Config : Type := mkConfig {
  GOOGLE_DRIVE_PDF1_ID : str;
  GOOGLE_DRIVE_PDF2_ID : str;
  GOOGLE_DRIVE_PDF3_ID : str
}.

(** "無法處理您的請求：有PDF文件為空。" *)
Definition empty_pdf_text : str :=
  [28961; 27861; 34389; 29702; 24744; 30340; 35531; 27714; 65306; 26377;
   80; 68; 70; 25991; 20214; 28858; 31354; 12290]%N.

(** "處理您的查詢時發生超時，請嘗試簡化您的問題或稍後再試。" *)
Definition timeout_text : str :=
  [34389; 29702; 24744; 30340; 26597; 35426; 26178; 30332; 29983; 36229;
   26178; 65292; 35531; 22039; 35430; 31777; 21270; 24744; 30340; 21839;
   38988; 25110; 31245; 24460; 20877; 35430; 12290]%N.

(** "list index out of range" *)
Definition index_error_text : str :=
  [108; 105; 115; 116; 32; 105; 110; 100; 101; 120; 32; 111; 117; 116; 32;
   111; 102; 32; 114; 97; 110; 103; 101]%N.

(** The two literals of the length test and of the slicing. *)
Definition length_limit : nat := 5000.
Definition chunk_size : nat := 4000.

(** The download fills a [BytesIO] that is rewound before it is returned;
    the embedding keeps its contents. *)
Definition get_pdf_from_drive (file_id : str) : M bytes :=
  try_ (download_media file_id)
       [(isException, fun e => raise e)].

Definition process_with_gemini (pdf_data1 pdf_data2 pdf_data3 : bytes)
    (user_query : str) : M str :=
  try_ (genai_Client ;;
        pdf_file1 <- files_upload pdf_data1 ;;
        pdf_file2 <- files_upload pdf_data2 ;;
        pdf_file3 <- files_upload pdf_data3 ;;
        try_ (response_text <-
                generate_content
                  [PartFile pdf_file1; PartFile pdf_file2; PartFile pdf_file3]
                  user_query ;;
              ret response_text)
             [(isTimeoutException, fun _ => ret timeout_text);
              (isException, fun e => raise e)])
       [(isException, fun e => ret (query_error_prefix ++ exc_str e))].

(** [[gemini_response[i:i+4000] for i in range(0, len(gemini_response), 4000)]] *)
Definition chunks (gemini_response : str) : list str :=
  map (fun i => Py.slice gemini_response i (i + chunk_size))
      (Py.range 0 (length gemini_response) chunk_size).

(** The last statement of the [try] of [handle_text_message]: the length
    test and the delivery of the answer. *)
Definition send_response (event : MessageEvent) (gemini_response : str) : M unit :=
  if length_limit <? length gemini_response then
    match chunks gemini_response with
    | [] => raise (mkExc IndexError index_error_text)      (* chunks[0] *)
    | chunk0 :: rest =>
        reply_message (reply_token event) chunk0 ;;
        for_each rest (fun chunk => push_message (user_id event) chunk)
    end
  else reply_message (reply_token event) gemini_response.

Definition handle_text_message (cfg : Config) (event : MessageEvent) : M unit :=
  try_ (push_message (user_id event) processing_text ;;
        pdf_data1 <- get_pdf_from_drive (GOOGLE_DRIVE_PDF1_ID cfg) ;;
        pdf_data2 <- get_pdf_from_drive (GOOGLE_DRIVE_PDF2_ID cfg) ;;
        pdf_data3 <- get_pdf_from_drive (GOOGLE_DRIVE_PDF3_ID cfg) ;;
        if (length pdf_data1 =? 0) || (length pdf_data2 =? 0)
           || (length pdf_data3 =? 0)
        then reply_message (reply_token event) empty_pdf_text   (* return *)
        else
          gemini_response <-
            process_with_gemini pdf_data1 pdf_data2 pdf_data3 (text event) ;;
          send_response event gemini_response)
       [(isException,
         fun e => reply_message (reply_token event)
                    (request_error_prefix ++ exc_str e))].

Definition callback (cfg : Config) : str -> str -> M str :=
  callback_with (handle_text_message cfg).

End App2.

(** ** Observations on traces *)

Definition is_push (ev : Event) : bool :=
  match ev with PushMessage _ _ _ => true | _ => false end.

Definition is_reply (ev : Event) : bool :=
  match ev with ReplyMessage _ _ _ => true | _ => false end.

(** The calls of [process_with_gemini]. *)
Definition is_inference (ev : Event) : bool :=
  match ev with
  | GeminiClient _ | FilesUpload _ _ | GenerateContent _ _ _ => true
  | _ => false
  end.

Definition raised (A : Type) (r : Result A) : option Exc :=
  match r with Ok _ => None | Raise e => Some e end.

(** The exception with which a LINE or Drive call ended, if it did: these
    are the calls made directly in the [try] of [handle_text_message]. *)
Definition failure (ev : Event) : option Exc :=
  match ev with
  | PushMessage _ _ r => raised r
  | ReplyMessage _ _ r => raised r
  | DriveDownload _ r => raised r
  | _ => None
  end.

Definition succeeded (ev : Event) : bool :=
  match failure ev with None => true | Some _ => false end.

(** No LINE or Drive call of the trace raised. *)
Definition clean (es : list Event) : bool := forallb succeeded es.

(** A run that stops at the first LINE or Drive call that raises: either
    it returns and no such call raised, or it raises the exception of the
    last call made, the only one that raised. *)
Definition stops_at_failure (A : Type) (r : Result A) (es : list Event) : Prop :=
  match r with
  | Ok _ => clean es = true
  | Raise e =>
      exists es0 c, es = es0 ++ [c] /\ clean es0 = true /\ failure c = Some e
  end.

Definition guarded (A : Type) (m : M A) : Prop :=
  forall w h, stops_at_failure (result m w h) (trace m w h).

(** What the [try ... except Exception as e: reply(...)] of a handler
    achieves: either the run returns and no LINE or Drive call raised, or
    exactly one call [c] of the body raised, the next and last call is the
    reply carrying the text of its exception, and the handler ends as that
    reply ends. *)
Definition error_reply_protocol (handler : MessageEvent -> M unit) : Prop :=
  forall w event h,
    let r := result (handler event) w h in
    let es := trace (handler event) w h in
    (r = Ok tt /\ clean es = true)
    \/ (exists es0 c e,
          es = es0 ++ [c; ReplyMessage (reply_token event)
                            (request_error_prefix ++ exc_str e) r]
          /\ clean es0 = true /\ failure c = Some e).

(** What a handler does when a download raises [e]: one reply in the whole
    run, carrying the text of [e], and no call to the Gemini client. *)
Definition fetch_failure_protocol (handler : MessageEvent -> M unit) : Prop :=
  forall w event h fid e,
    In (DriveDownload fid (Raise e)) (trace (handler event) w h) ->
    (exists r,
        filter is_reply (trace (handler event) w h)
        = [ReplyMessage (reply_token event)
             (request_error_prefix ++ exc_str e) r])
    /\ filter is_inference (trace (handler event) w h) = [].

(** The answers of [callback]: 400 without running any handler when the
    signature does not validate; "OK" with status 200 when it validates and
    the dispatch of the events returns; and when the dispatch raises
    anything but [InvalidSignatureError], that exception. *)
Definition callback_contract (on_text : MessageEvent -> M unit)
    (callback : str -> str -> M str) : Prop :=
  forall w body signature h,
    (signature_valid w body signature = false ->
     callback body signature w h = (Raise (mkExc (HTTPException 400) []), [])
     /\ flask_status (result (callback body signature) w h) = 400)
    /\ (signature_valid w body signature = true ->
        result (WebhookHandler_handle on_text body signature) w h = Ok tt ->
        result (callback body signature) w h = Ok OK
        /\ flask_status (result (callback body signature) w h) = 200)
    /\ (forall e,
          signature_valid w body signature = true ->
          result (WebhookHandler_handle on_text body signature) w h = Raise e ->
          isInvalidSignatureError e = false ->
          result (callback body signature) w h = Raise e).

(** The chunks of a response as the spec counts them: the slices when the
    response is over the limit, the response itself otherwise. *)
Definition message_chunks (gemini_response : str) : list str :=
  if App2.length_limit <? length gemini_response
  then App2.chunks gemini_response
  else [gemini_response].

(** ** Concrete scenarios

    Inputs and worlds on which the statements below are evaluated. *)

Module Scenario.

(** 9000 and 4500 times the letter a. *)
Definition nine_thousand_a : str := repeat 97%N (9 * 1000).
Definition forty_five_hundred_a : str := repeat 97%N (9 * 500).

(** A text message "hi" from user "U1" with reply token "tk". *)
Definition event : MessageEvent :=
  mkMessageEvent [85; 49]%N [116; 107]%N [104; 105]%N.

(** The Drive identifiers "f1", "f2" and "f3". *)
Definition cfg1 : App.Config := App.mkConfig [102; 49]%N.
Definition cfg2 : App2.Config :=
  App2.mkConfig [102; 49]%N [102; 50]%N [102; 51]%N.

(** The four bytes "%PDF". *)
Definition pdf : bytes := [x25; x50; x44; x46].

(** Exceptions with the texts "boom" and "timed out". *)
Definition boom : Exc := mkExc OtherException [98; 111; 111; 109]%N.
Definition timed_out : Exc :=
  mkExc TimeoutException [116; 105; 109; 101; 100; 32; 111; 117; 116]%N.

(** A world in which each kind of call has one outcome, whatever the
    history; every body carries the single text message [event]. *)
Definition world (push reply : Result unit) (download : Result bytes)
    (generate : Result str) (valid : bool) : World :=
  mkWorld (fun _ _ _ => push) (fun _ _ _ => reply) (fun _ _ => download)
          (fun _ => Ok tt) (fun _ _ => Ok 7%N) (fun _ _ _ => generate)
          (fun _ _ => valid) (fun _ => [TextMessageEvent event]).

(** Everything works and Gemini answers "ok". *)
Definition calm : World :=
  world (Ok tt) (Ok tt) (Ok pdf) (Ok [111; 107]%N) true.

(** Everything works and Gemini answers 9000 times the letter a. *)
Definition long_answer : World :=
  world (Ok tt) (Ok tt) (Ok pdf) (Ok nine_thousand_a) true.

(** The reply token is refused (expired or already used) while pushes,
    Drive and Gemini work. *)
Definition reply_refused : World :=
  world (Ok tt) (Raise boom) (Ok pdf) (Ok [111; 107]%N) true.

(** Drive is down. *)
Definition drive_down : World :=
  world (Ok tt) (Ok tt) (Raise boom) (Ok [111; 107]%N) true.

(** Drive returns empty files. *)
Definition empty_files : World :=
  world (Ok tt) (Ok tt) (Ok []) (Ok [111; 107]%N) true.

(** [generate_content] times out. *)
Definition gemini_timeout : World :=
  world (Ok tt) (Ok tt) (Ok pdf) (Raise timed_out) true.

(** The signature of the request does not validate. *)
Definition forged : World :=
  world (Ok tt) (Ok tt) (Ok pdf) (Ok [111; 107]%N) false.

(** The acknowledgment is refused. *)
Definition push_refused : World :=
  world (Raise boom) (Ok tt) (Ok pdf) (Ok [111; 107]%N) true.

(** The acknowledgment, the first call of the request, goes through; every
    later push is refused. *)
Definition later_push_refused : World :=
  mkWorld (fun h _ _ => match h with [] => Ok tt | _ => Raise boom end)
          (fun _ _ _ => Ok tt) (fun _ _ => Ok pdf)
          (fun _ => Ok tt) (fun _ _ => Ok 7%N)
          (fun _ _ _ => Ok nine_thousand_a)
          (fun _ _ => true) (fun _ => [TextMessageEvent event]).

(** The upload of a document times out. *)
Definition upload_timeout : World :=
  mkWorld (fun _ _ _ => Ok tt) (fun _ _ _ => Ok tt) (fun _ _ => Ok pdf)
          (fun _ => Ok tt) (fun _ _ => Raise timed_out)
          (fun _ _ _ => Ok [111; 107]%N)
          (fun _ _ => true) (fun _ => [TextMessageEvent event]).

(** [generate_content] fails with an exception that is not a timeout. *)
Definition gemini_down : World :=
  world (Ok tt) (Ok tt) (Ok pdf) (Raise boom) true.

End Scenario.

(** ** Further observations on traces *)

(** The text of a LINE message. *)
Definition line_text (ev : Event) : option str :=
  match ev with
  | PushMessage _ t _ | ReplyMessage _ t _ => Some t
  | _ => None
  end.

(** A LINE call with its outcome replaced by a normal return. *)
Definition delivered (ev : Event) : Event :=
  match ev with
  | PushMessage to t _ => PushMessage to t (Ok tt)
  | ReplyMessage tok t _ => ReplyMessage tok t (Ok tt)
  | _ => ev
  end.

(** The calls that deliver a response when none of them raises: chunk 0 by
    reply, the other chunks by push. *)
Definition planned_calls (event : MessageEvent) (gemini_response : str)
    : list Event :=
  match message_chunks gemini_response with
  | [] => []
  | chunk0 :: rest =>
      ReplyMessage (reply_token event) chunk0 (Ok tt)
      :: map (fun chunk => PushMessage (user_id event) chunk (Ok tt)) rest
  end.

(** A LINE message, if the event is one, is within the length limit. *)
Definition within_limit (ev : Event) : Prop :=
  match line_text ev with
  | Some t => length t <= App2.length_limit
  | None => True
  end.

(** A LINE call goes to the sender of the event: a push to its user, a
    reply under its reply token. *)
Definition addressed (event : MessageEvent) (ev : Event) : Prop :=
  match ev with
  | PushMessage to _ _ => to = user_id event
  | ReplyMessage tok _ _ => tok = reply_token event
  | _ => True
  end.

(** The identifiers of the files requested from Drive, in order. *)
Definition downloads (es : list Event) : list str :=
  flat_map (fun ev => match ev with
                      | DriveDownload fid _ => [fid]
                      | _ => []
                      end) es.

Definition is_generate (ev : Event) : bool :=
  match ev with GenerateContent _ _ _ => true | _ => false end.

(** What [process_with_gemini] returns for an outcome of
    [generate_content]: in app.py the response text or the generic error
    text; in app2-multi-pdf.py the fixed text for a timeout as well. *)
Definition answer_of1 (g : Result str) : str :=
  match g with
  | Ok response_text => response_text
  | Raise e => query_error_prefix ++ exc_str e
  end.

Definition answer_of2 (g : Result str) : str :=
  match g with
  | Ok response_text => response_text
  | Raise e =>
      if isTimeoutException e then App2.timeout_text
      else query_error_prefix ++ exc_str e
  end.

(** The exception with which a call that prepares the inference ended, if
    it did: the construction of the client or an upload. *)
Definition setup_failure (ev : Event) : option Exc :=
  match ev with
  | GeminiClient r => raised r
  | FilesUpload _ r => raised r
  | _ => None
  end.

(** Every event that a computation issues satisfies [P], in every world
    and after every history. *)
Definition emits (P : Event -> Prop) (A : Type) (m : M A) : Prop :=
  forall w h, Forall P (trace m w h).

(** ** The download in detail

    [download_media] stands for the body of the [try] of
    [get_pdf_from_drive] and records only its outcome.  The definitions
    below follow that body statement by statement: the [io.BytesIO] that
    receives the file, the [next_chunk] loop, and what each program
    returns. *)

Module BytesIO.

(** An [io.BytesIO]: its buffer and its stream position. *)
Record t : Type := mk { buffer : bytes; position : nat }.

(** [io.BytesIO()] *)
Definition new : t := mk [] 0.

(** [f.write(b)]: the bytes go to the stream position, over what is there,
    after null bytes when the position is past the end; the position moves
    behind them. *)
Definition write (f : t) (b : bytes) : t :=
  let padded := buffer f ++ repeat x00 (position f - length (buffer f)) in
  mk (firstn (position f) padded ++ b
      ++ skipn (position f + length b) (buffer f))
     (position f + length b).

(** [f.seek(p)] *)
Definition seek (f : t) (p : nat) : t := mk (buffer f) p.

(** [f.getvalue()] *)
Definition getvalue (f : t) : bytes := buffer f.

(** [f.getbuffer().nbytes] *)
Definition nbytes (f : t) : nat := length (buffer f).

(** The bytes that [f.read()] returns: those from the position on. *)
Definition read (f : t) : bytes := skipn (position f) (buffer f).

End BytesIO.

(** What Drive does during one download, call of [next_chunk] after call:
    a chunk that completes the file ([done] is true), a chunk with more to
    come, or an exception.  An exception of [initialize_google_drive_client]
    or of [get_media] is a transfer that is [Broken] from the start; a
    transfer that never completes is not represented. *)
Inductive Transfer : Type :=
| Done (chunk : bytes)
| More (chunk : bytes) (rest : Transfer)
| Broken (e : Exc).

(** [while not done: status, done = downloader.next_chunk()], the
    downloader writing each chunk to [file_content]. *)
Fixpoint next_chunks (transfer : Transfer) (file_content : BytesIO.t)
    : Result BytesIO.t :=
  match transfer with
  | Done chunk => Ok (BytesIO.write file_content chunk)
  | More chunk rest => next_chunks rest (BytesIO.write file_content chunk)
  | Broken e => Raise e
  end.

Module Download.

(** [get_pdf_from_drive] of app.py: [return file_content.getvalue()], and
    an exception is logged and raised again. *)
Definition app_get_pdf_from_drive (transfer : Transfer) : Result bytes :=
  match next_chunks transfer BytesIO.new with
  | Ok file_content => Ok (BytesIO.getvalue file_content)
  | Raise e => Raise e
  end.

(** [get_pdf_from_drive] of app2-multi-pdf.py: [file_content.seek(0)] and
    [return file_content], and an exception is logged and raised again. *)
Definition app2_get_pdf_from_drive (transfer : Transfer) : Result BytesIO.t :=
  match next_chunks transfer BytesIO.new with
  | Ok file_content => Ok (BytesIO.seek file_content 0)
  | Raise e => Raise e
  end.

(** The chunks that Drive sends before the transfer ends or breaks. *)
Fixpoint sent_chunks (transfer : Transfer) : list bytes :=
  match transfer with
  | Done chunk => [chunk]
  | More chunk rest => chunk :: sent_chunks rest
  | Broken _ => []
  end.

(** The exception that breaks the transfer, if one does. *)
Fixpoint breaks (transfer : Transfer) : option Exc :=
  match transfer with
  | Done _ => None
  | More _ rest => breaks rest
  | Broken e => Some e
  end.

End Download.

(** ** Requests that fail *)


(** ** Requests that are answered *)

(** Every LINE or Drive call of the trace that raised is followed at once
    by the delivered reply of the text of its exception, under the reply
    token of a text message of the payload. *)
Definition reported (events : list WebhookEvent) (es : list Event) : Prop :=
  forall i c e0,
    nth_error es i = Some c ->
    failure c = Some e0 ->
    exists event,
      In (TextMessageEvent event) events
      /\ nth_error es (S i)
         = Some (ReplyMessage (reply_token event)
                   (request_error_prefix ++ exc_str e0) (Ok tt)).

(** What holds of a request to which [callback] returns an answer: the
    answer is "OK", the signature validated, and every failure of the run
    was reported to the user. *)
Definition request_success_protocol (callback : str -> str -> M str) : Prop :=
  forall w body signature h s,
    result (callback body signature) w h = Ok s ->
    s = OK
    /\ signature_valid w body signature = true
    /\ reported (parse_events w body) (trace (callback body signature) w h).

(** * Properties *)

(** ** Slicing and [range] *)

Section Slices.

Variable A : Type.
Variable C : nat.
Hypothesis C_pos : 0 < C.

Lemma firstn_plus (s : list A) (a b : nat) :
  firstn (a + b) s = firstn a s ++ firstn b (skipn a s).
Proof.
  revert s; induction a as [|a IH]; intros s.
  - reflexivity.
  - destruct s as [|x s].
    + now rewrite !firstn_nil.
    + cbn [Nat.add firstn skipn app]. now rewrite IH.
Qed.

Lemma slice_step (s : list A) (i : nat) :
  Py.slice s i (i + C) = firstn C (skipn i s).
Proof.
  unfold Py.slice. now replace (i + C - i) with C by lia.
Qed.

(** The first [m] slices of width [C] make up the first [m * C] items. *)
Lemma concat_slices (s : list A) (m : nat) :
  concat (map (fun i => Py.slice s i (i + C))
              (map (fun k => 0 + k * C) (seq 0 m)))
  = firstn (m * C) s.
Proof.
  induction m as [|m IH].
  - reflexivity.
  - rewrite seq_S, !map_app, concat_app, IH.
    cbn [map concat Nat.add]. rewrite app_nil_r, slice_step.
    replace (S m * C) with (m * C + C) by lia.
    now rewrite firstn_plus.
Qed.

(** [len(range(0, n, C))] is the ceiling of [n / C]. *)
Lemma range_len_bounds (n : nat) :
  0 < n ->
  C * (Py.range_len 0 n C - 1) < n <= C * Py.range_len 0 n C.
Proof.
  intros Hn. unfold Py.range_len.
  destruct (Nat.ltb_spec 0 n) as [_|]; [|lia].
  replace (n - 0 - 1) with (n - 1) by lia.
  pose proof (Nat.div_mod_eq (n - 1) C) as E.
  pose proof (Nat.mod_upper_bound (n - 1) C ltac:(lia)) as U.
  set (q := (n - 1) / C) in *. set (r := (n - 1) mod C) in *.
  replace (q + 1 - 1) with q by lia. nia.
Qed.

Lemma range_len_div (n : nat) :
  0 < n -> Py.range_len 0 n C = (n + (C - 1)) / C.
Proof.
  intros Hn. unfold Py.range_len.
  destruct (Nat.ltb_spec 0 n) as [_|]; [|lia].
  replace (n + (C - 1)) with (n - 0 - 1 + 1 * C) by lia.
  rewrite Nat.div_add by lia. reflexivity.
Qed.

End Slices.

(** ** The chunker of app2-multi-pdf.py *)

Lemma chunk_size_pos : 0 < App2.chunk_size.
Proof. unfold App2.chunk_size. lia. Qed.

Lemma chunks_length (R : str) :
  length (App2.chunks R) = Py.range_len 0 (length R) App2.chunk_size.
Proof.
  unfold App2.chunks, Py.range. now rewrite !length_map, length_seq.
Qed.

Lemma chunks_nth (R : str) (i : nat) :
  i < length (App2.chunks R) ->
  nth i (App2.chunks R) [] =
  firstn App2.chunk_size (skipn (App2.chunk_size * i) R).
Proof.
  intros Hi. rewrite chunks_length in Hi.
  unfold App2.chunks, Py.range.
  rewrite map_map.
  set (f := fun k => Py.slice R (0 + k * App2.chunk_size)
                              (0 + k * App2.chunk_size + App2.chunk_size)).
  rewrite (nth_indep _ [] (f 0)) by now rewrite length_map, length_seq.
  rewrite map_nth, seq_nth by exact Hi.
  unfold f. rewrite slice_step by exact chunk_size_pos.
  now rewrite !Nat.add_0_l, Nat.mul_comm.
Qed.

Lemma chunks_concat (R : str) : concat (App2.chunks R) = R.
Proof.
  unfold App2.chunks, Py.range. rewrite concat_slices by exact chunk_size_pos.
  destruct R as [|c R'] eqn:E.
  - now rewrite firstn_nil.
  - rewrite <- E. apply firstn_all2.
    pose proof (range_len_bounds chunk_size_pos (n := length R)) as B.
    rewrite E in B |- *. cbn [length] in *. specialize (B ltac:(lia)). lia.
Qed.

Lemma chunks_nonempty (R : str) : 0 < length R -> App2.chunks R <> [].
Proof.
  intros Hn E. apply (f_equal (@length _)) in E.
  rewrite chunks_length in E. cbn [length] in E.
  pose proof (range_len_bounds chunk_size_pos Hn). lia.
Qed.

Lemma last_as_nth (A : Type) (l : list A) (d : A) :
  last l d = nth (length l - 1) l d.
Proof.
  induction l as [|x l IH]; [reflexivity|].
  destruct l as [|y l]; [reflexivity|].
  change (last (x :: y :: l) d) with (last (y :: l) d).
  rewrite IH. cbn [length Nat.sub]. now rewrite Nat.sub_0_r.
Qed.

Lemma chunk_lengths (R : str) (i : nat) :
  i < length (App2.chunks R) ->
  length (nth i (App2.chunks R) []) =
  Nat.min App2.chunk_size (length R - App2.chunk_size * i).
Proof.
  intros Hi. now rewrite chunks_nth, length_firstn, length_skipn.
Qed.

(** C1.  A response of more than 5000 characters is cut into
    ceil(len/4000) chunks; chunk [i] is the slice of the response that
    starts at character [4000 * i], so the chunks are contiguous and in the
    original order; every chunk but the last has 4000 characters, the last
    has the remaining [len - 4000 * (n - 1)]; and the chunks concatenated in
    order give back the response. *)
Theorem chunks_partition (R : str) :
  5000 < length R ->
  let cs := App2.chunks R in
  let n := length cs in
  n = (length R + 3999) / 4000 /\
  4000 * (n - 1) < length R <= 4000 * n /\
  (forall i, i < n -> nth i cs [] = firstn 4000 (skipn (4000 * i) R)) /\
  (forall i, i + 1 < n -> length (nth i cs []) = 4000) /\
  length (last cs []) = length R - 4000 * (n - 1) /\
  concat cs = R.
Proof.
  intros Hlen cs n.
  assert (Hpos : 0 < length R).
  { eapply Nat.le_lt_trans; [apply Nat.le_0_l | exact Hlen]. }
  change 3999 with (App2.chunk_size - 1).
  change 4000 with App2.chunk_size.
  pose proof chunk_size_pos as Cpos.
  pose proof (range_len_bounds Cpos Hpos) as B.
  assert (En : n = Py.range_len 0 (length R) App2.chunk_size)
    by apply chunks_length.
  rewrite <- En in B.
  split; [|split; [|split; [|split; [|split]]]].
  - rewrite En. now apply range_len_div.
  - exact B.
  - intros i Hi. now apply chunks_nth.
  - intros i Hi. subst cs. rewrite chunk_lengths by (fold n; lia).
    apply Nat.min_l. nia.
  - subst cs. rewrite last_as_nth. fold n.
    rewrite chunk_lengths by (fold n; lia).
    apply Nat.min_r. nia.
  - apply chunks_concat.
Qed.

Lemma chunks_partition_witness :
  5000 < length Scenario.nine_thousand_a /\
  concat (App2.chunks Scenario.nine_thousand_a) = Scenario.nine_thousand_a.
Proof.
  assert (H : 5000 < length Scenario.nine_thousand_a)
    by (apply Nat.ltb_lt; vm_compute; reflexivity).
  split; [exact H|].
  exact (proj2 (proj2 (proj2 (proj2 (proj2
           (chunks_partition Scenario.nine_thousand_a H)))))).
Defined.

(** The 9000-character scenario: three chunks of 4000, 4000 and 1000. *)
Example chunks_nine_thousand :
  map (@length N) (App2.chunks Scenario.nine_thousand_a) = [4000; 4000; 1000].
Proof. vm_compute. reflexivity. Qed.

(** ** Running computations *)

Lemma bind_inv (A B : Type) (m : M A) (f : A -> M B) w h r es :
  bind m f w h = (r, es) ->
  (exists a es1 es2,
      m w h = (Ok a, es1) /\ f a w (h ++ es1) = (r, es2) /\ es = es1 ++ es2)
  \/ (exists e, m w h = (Raise e, es) /\ r = Raise e).
Proof.
  unfold bind. destruct (m w h) as [[a|e] es1].
  - destruct (f a w (h ++ es1)) as [r' es2] eqn:Hf. intros [= <- <-].
    left. now exists a, es1, es2.
  - intros [= <- <-]. right. now exists e.
Qed.

Lemma try_inv (A : Type) (m : M A) clauses w h r es :
  try_ m clauses w h = (r, es) ->
  (exists a, m w h = (Ok a, es) /\ r = Ok a)
  \/ (exists e es1 es2,
        m w h = (Raise e, es1)
        /\ select_clause clauses e w (h ++ es1) = (r, es2)
        /\ es = es1 ++ es2).
Proof.
  unfold try_. destruct (m w h) as [[a|e] es1].
  - intros [= <- <-]. left. now exists a.
  - destruct (select_clause clauses e w (h ++ es1)) as [r' es2] eqn:Hs.
    intros [= <- <-]. right. now exists e, es1, es2.
Qed.

Lemma push_inv to t w h r es :
  push_message to t w h = (r, es) ->
  es = [PushMessage to t r] /\ line_push w h to t = r.
Proof. unfold push_message. now intros [= <- <-]. Qed.

Lemma reply_inv tok t w h r es :
  reply_message tok t w h = (r, es) ->
  es = [ReplyMessage tok t r] /\ line_reply w h tok t = r.
Proof. unfold reply_message. now intros [= <- <-]. Qed.

Lemma download_inv fid w h r es :
  download_media fid w h = (r, es) ->
  es = [DriveDownload fid r] /\ drive_download w h fid = r.
Proof. unfold download_media. now intros [= <- <-]. Qed.

Lemma client_inv w h r es :
  genai_Client w h = (r, es) ->
  es = [GeminiClient r] /\ gemini_client w h = r.
Proof. unfold genai_Client. now intros [= <- <-]. Qed.

Lemma upload_inv data w h r es :
  files_upload data w h = (r, es) ->
  es = [FilesUpload data r] /\ gemini_upload w h data = r.
Proof. unfold files_upload. now intros [= <- <-]. Qed.

Lemma generate_inv parts q w h r es :
  generate_content parts q w h = (r, es) ->
  es = [GenerateContent parts q r] /\ gemini_generate w h parts q = r.
Proof. unfold generate_content. now intros [= <- <-]. Qed.

Lemma ret_inv (A : Type) (a : A) w h r es :
  ret a w h = (r, es) -> r = Ok a /\ es = [].
Proof. unfold ret. now intros [= <- <-]. Qed.

Lemma raise_inv (A : Type) e w h (r : Result A) es :
  raise e w h = (r, es) -> r = Raise e /\ es = [].
Proof. unfold raise. now intros [= <- <-]. Qed.

(** [H : r = Ok a] or [H : r = Raise e], where [r] is a variable or starts
    with a constructor. *)
Ltac settle_result H :=
  match type of H with
  | ?r = _ => is_var r; subst r
  | Ok _ = Ok _ => injection H as ->
  | Raise _ = Raise _ => injection H as ->
  | _ => discriminate H
  end.

(** One step of inversion of a run, on a hypothesis of the context. *)
Ltac inv_step :=
  match goal with
  | H : bind _ _ _ _ = (_, _) |- _ =>
      let Hr := fresh "Hr" in
      apply bind_inv in H;
      destruct H as [(? & ? & ? & ? & H & ->) | (? & H & Hr)];
      [| settle_result Hr]; cbv beta in H
  | H : try_ _ _ _ _ = (_, _) |- _ =>
      let Hr := fresh "Hr" in
      apply try_inv in H;
      destruct H as [(? & H & Hr) | (? & ? & ? & ? & H & ->)];
      [settle_result Hr | cbn [select_clause isException] in H]
  | H : push_message _ _ _ _ = (_, _) |- _ =>
      apply push_inv in H; destruct H as [-> H]
  | H : reply_message _ _ _ _ = (_, _) |- _ =>
      apply reply_inv in H; destruct H as [-> H]
  | H : download_media _ _ _ = (_, _) |- _ =>
      apply download_inv in H; destruct H as [-> H]
  | H : genai_Client _ _ = (_, _) |- _ =>
      apply client_inv in H; destruct H as [-> H]
  | H : files_upload _ _ _ = (_, _) |- _ =>
      apply upload_inv in H; destruct H as [-> H]
  | H : generate_content _ _ _ _ = (_, _) |- _ =>
      apply generate_inv in H; destruct H as [-> H]
  | H : ret _ _ _ = (_, _) |- _ =>
      apply ret_inv in H; destruct H as [H ->]; settle_result H
  | H : raise _ _ _ = (_, _) |- _ =>
      apply raise_inv in H; destruct H as [H ->]; settle_result H
  | H : select_clause _ _ _ _ = (_, _) |- _ =>
      progress cbn [select_clause isException] in H
  | H : (if ?b then _ else _) _ _ = (_, _) |- _ =>
      destruct b eqn:?
  | H : App.get_pdf_from_drive _ _ _ = (_, _) |- _ =>
      unfold App.get_pdf_from_drive in H
  | H : App2.get_pdf_from_drive _ _ _ = (_, _) |- _ =>
      unfold App2.get_pdf_from_drive in H
  | H : Ok _ = Raise _ |- _ => discriminate H
  | H : Raise _ = Ok _ |- _ => discriminate H
  end.

Ltac inv_run := repeat inv_step.

Lemma forallb_In (A : Type) (P : A -> bool) (l : list A) (x : A) :
  forallb P l = true -> In x l -> P x = true.
Proof. intros H. now apply forallb_forall. Qed.

(** ** [process_with_gemini] *)

(** Both programs catch every exception of the inference: the function
    always returns a string, and its only calls are those of the Gemini
    client. *)
Lemma process_with_gemini_returns2 p1 p2 p3 q w h r es :
  App2.process_with_gemini p1 p2 p3 q w h = (r, es) ->
  (exists s, r = Ok s) /\ forallb is_inference es = true.
Proof.
  unfold App2.process_with_gemini. intros Hrun.
  inv_run; (split; [eexists; reflexivity | reflexivity]).
Qed.

Lemma process_with_gemini_returns1 pdf q w h r es :
  App.process_with_gemini pdf q w h = (r, es) ->
  (exists s, r = Ok s) /\ forallb is_inference es = true.
Proof.
  unfold App.process_with_gemini. intros Hrun.
  inv_run; (split; [eexists; reflexivity | reflexivity]).
Qed.

(** In app2-multi-pdf.py a timeout of [generate_content] gives the fixed
    text. *)
Lemma process_with_gemini_timeout2 p1 p2 p3 q w h r es parts q' e :
  App2.process_with_gemini p1 p2 p3 q w h = (r, es) ->
  In (GenerateContent parts q' (Raise e)) es ->
  isTimeoutException e = true ->
  r = Ok App2.timeout_text.
Proof.
  unfold App2.process_with_gemini. intros Hrun Hin Ht.
  inv_run; cbn in Hin; intuition (try discriminate).
  all: match goal with
       | H : GenerateContent _ _ _ = GenerateContent _ _ _ |- _ =>
           inversion H; subst
       end; first [reflexivity | congruence].
Qed.

(** In app.py every failure of [generate_content], a timeout included,
    gives the generic text followed by [str(e)]. *)
Lemma process_with_gemini_failure1 pdf q w h r es parts q' e :
  App.process_with_gemini pdf q w h = (r, es) ->
  In (GenerateContent parts q' (Raise e)) es ->
  r = Ok (query_error_prefix ++ exc_str e).
Proof.
  unfold App.process_with_gemini. intros Hrun Hin.
  inv_run; cbn in Hin; intuition (try discriminate).
  all: match goal with
       | H : GenerateContent _ _ _ = GenerateContent _ _ _ |- _ =>
           inversion H; subst
       end; first [reflexivity | congruence].
Qed.

(** ** The delivery of the answer in app2-multi-pdf.py *)

Section Delivery.

Variable w : World.
Variable event : MessageEvent.

Let push_ok (chunk : str) : Event :=
  PushMessage (user_id event) chunk (Ok tt).

(** The loop over [chunks[1:]] pushes the chunks in order and stops at
    the first push that raises. *)
Lemma for_each_push_run (cs : list str) h r es :
  for_each cs (fun chunk => push_message (user_id event) chunk) w h = (r, es) ->
  (r = Ok tt /\ es = map push_ok cs)
  \/ (exists e sent chunk rest,
        r = Raise e /\ cs = sent ++ chunk :: rest
        /\ es = map push_ok sent ++ [PushMessage (user_id event) chunk (Raise e)]).
Proof.
  revert h r es. induction cs as [|c cs IH]; intros h r es Hrun.
  - cbn [for_each] in Hrun. inv_run. now left.
  - cbn [for_each] in Hrun. inv_step.
    + inv_step. destruct x. apply IH in Hrun as [[-> ->] | (e & sent & c' & rest & -> & -> & ->)].
      * now left.
      * right. exists e, (c :: sent), c', rest. now repeat split.
    + inv_step. right. exists x, [], c, cs. now repeat split.
Qed.

Lemma message_chunks_nonempty (R : str) : message_chunks R <> [].
Proof.
  unfold message_chunks.
  destruct (Nat.ltb_spec App2.length_limit (length R)) as [Hlt|]; [|easy].
  apply chunks_nonempty. lia.
Qed.

(** The answer goes out as the plan says: the first chunk by reply, the
    others by push, up to the first call that raises. *)
Lemma send_response_run (R : str) h r es :
  App2.send_response event R w h = (r, es) ->
  exists chunk0 rest,
    message_chunks R = chunk0 :: rest
    /\ ((r = Ok tt
         /\ es = ReplyMessage (reply_token event) chunk0 (Ok tt)
                 :: map push_ok rest)
        \/ (exists e,
              r = Raise e
              /\ es = [ReplyMessage (reply_token event) chunk0 (Raise e)])
        \/ (exists e sent chunk rest',
              r = Raise e /\ rest = sent ++ chunk :: rest'
              /\ es = ReplyMessage (reply_token event) chunk0 (Ok tt)
                      :: map push_ok sent
                      ++ [PushMessage (user_id event) chunk (Raise e)])).
Proof.
  pose proof (message_chunks_nonempty R) as Hne.
  unfold App2.send_response, message_chunks in *.
  destruct (App2.length_limit <? length R).
  - destruct (App2.chunks R) as [|c0 rest]; [easy|]. intros Hrun.
    exists c0, rest. split; [reflexivity|].
    inv_step.
    + inv_step. destruct x.
      apply for_each_push_run in Hrun
        as [[-> ->] | (e & sent & c' & rest' & -> & -> & ->)].
      * now left.
      * right; right. now exists e, sent, c', rest'.
    + inv_step. right; left. now exists x.
  - intros Hrun. exists R, []. split; [reflexivity|].
    inv_step. destruct r as [[]|e].
    + now left.
    + right; left. now exists e.
Qed.

End Delivery.

Lemma pushes_no_reply (to : str) (r : Result unit) (cs : list str) :
  filter is_reply (map (fun chunk => PushMessage to chunk r) cs) = [].
Proof. induction cs as [|c cs IH]; [reflexivity | exact IH]. Qed.

Lemma pushes_all_push (to : str) (r : Result unit) (cs : list str) :
  length (filter is_push (map (fun chunk => PushMessage to chunk r) cs))
  = length cs.
Proof.
  induction cs as [|c cs IH]; [reflexivity|].
  cbn [map filter is_push length]. now rewrite IH.
Qed.

(** C2.  A response of at most 5000 characters, 4500 included, is one chunk,
    the response itself, and its delivery is a single call, a reply with the
    reply token: no push is issued for the answer. *)
Theorem short_response_single_reply (w : World) (event : MessageEvent)
    (R : str) (h : list Event) :
  length R <= 5000 ->
  message_chunks R = [R]
  /\ exists r,
       App2.send_response event R w h
       = (r, [ReplyMessage (reply_token event) R r]).
Proof.
  intros Hlen. change 5000 with App2.length_limit in Hlen.
  unfold message_chunks, App2.send_response.
  destruct (Nat.ltb_spec App2.length_limit (length R)) as [Hlt|_]; [lia|].
  split; [reflexivity|]. unfold reply_message. eexists. reflexivity.
Qed.

(** C3.  When no delivery call raises, the answer goes out as one reply
    carrying chunk 0 under the reply token, followed by one push per
    remaining chunk, addressed to the user of the event and in the order of
    the chunks: 1 reply and n - 1 pushes for n chunks. *)
Theorem delivery_plan (w : World) (event : MessageEvent) (R : str)
    (h : list Event) :
  result (App2.send_response event R) w h = Ok tt ->
  exists chunk0 rest,
    message_chunks R = chunk0 :: rest
    /\ trace (App2.send_response event R) w h
       = ReplyMessage (reply_token event) chunk0 (Ok tt)
         :: map (fun chunk => PushMessage (user_id event) chunk (Ok tt)) rest
    /\ length (filter is_reply (trace (App2.send_response event R) w h)) = 1
    /\ length (filter is_push (trace (App2.send_response event R) w h))
       = Nat.max 0 (length (message_chunks R) - 1).
Proof.
  unfold result, trace.
  destruct (App2.send_response event R w h) as [r es] eqn:Hrun.
  cbn [fst snd]. intros ->.
  apply send_response_run in Hrun
    as (c0 & rest & Hc & [[_ ->] | [(e & [=] & _) | (e & ? & ? & ? & [=] & _)]]).
  exists c0, rest. rewrite Hc. repeat split.
  - cbn [filter is_reply length]. now rewrite pushes_no_reply.
  - cbn [filter is_push length Nat.sub Nat.max].
    now rewrite Nat.sub_0_r, pushes_all_push.
Qed.

Lemma short_response_single_reply_witness :
  length Scenario.forty_five_hundred_a <= 5000
  /\ message_chunks Scenario.forty_five_hundred_a
     = [Scenario.forty_five_hundred_a].
Proof.
  assert (H : length Scenario.forty_five_hundred_a <= 5000)
    by (apply Nat.leb_le; vm_compute; reflexivity).
  split; [exact H|].
  exact (proj1 (short_response_single_reply
                  Scenario.calm Scenario.event
                  Scenario.forty_five_hundred_a [] H)).
Defined.

Lemma delivery_plan_witness :
  result (App2.send_response Scenario.event Scenario.nine_thousand_a)
         Scenario.calm [] = Ok tt
  /\ length (filter is_push
       (trace (App2.send_response Scenario.event Scenario.nine_thousand_a)
              Scenario.calm [])) = 2.
Proof.
  assert (H : result (App2.send_response Scenario.event
                        Scenario.nine_thousand_a) Scenario.calm [] = Ok tt)
    by (vm_compute; reflexivity).
  split; [exact H|].
  destruct (delivery_plan Scenario.calm Scenario.event
              Scenario.nine_thousand_a [] H) as (c0 & rest & _ & _ & _ & Hp).
  rewrite Hp. vm_compute. reflexivity.
Defined.

(** The 9000-character scenario, call by call. *)
Example nine_thousand_delivery :
  map (fun ev => match ev with
                 | ReplyMessage _ t _ => (true, length t)
                 | PushMessage _ t _ => (false, length t)
                 | _ => (false, 0)
                 end)
      (trace (App2.send_response Scenario.event Scenario.nine_thousand_a)
             Scenario.calm [])
  = [(true, 4000); (false, 4000); (false, 1000)].
Proof. vm_compute. reflexivity. Qed.

(** ** Runs that stop at the first failing call *)

Section Guarded.

Lemma clean_app (es1 es2 : list Event) :
  clean (es1 ++ es2) = clean es1 && clean es2.
Proof. apply forallb_app. Qed.

Lemma guarded_ret (A : Type) (a : A) : guarded (ret a).
Proof. intros w h. reflexivity. Qed.

Lemma guarded_bind (A B : Type) (m : M A) (f : A -> M B) :
  guarded m -> (forall a, guarded (f a)) -> guarded (bind m f).
Proof.
  intros Hm Hf w h. specialize (Hm w h).
  unfold result, trace, bind in *.
  destruct (m w h) as [[a|e] es1]; cbn [fst snd] in *; [|exact Hm].
  specialize (Hf a w (h ++ es1)). unfold result, trace in Hf.
  destruct (f a w (h ++ es1)) as [[b|e] es2]; cbn [fst snd stops_at_failure] in *.
  - now rewrite clean_app, Hm, Hf.
  - destruct Hf as (es0 & c & -> & Hc & Hfail).
    exists (es1 ++ es0), c. rewrite app_assoc, clean_app, Hm, Hc.
    now repeat split.
Qed.

(** A single LINE or Drive call. *)
Lemma guarded_call (A : Type) (r : Result A) (c : Event) :
  failure c = raised r -> stops_at_failure r [c].
Proof.
  intros Hc. destruct r as [a|e]; cbn [stops_at_failure raised] in *.
  - unfold clean, succeeded. cbn [forallb]. now rewrite Hc.
  - now exists [], c.
Qed.

Lemma guarded_push (to t : str) : guarded (push_message to t).
Proof. intros w h. now apply guarded_call. Qed.

Lemma guarded_reply (tok t : str) : guarded (reply_message tok t).
Proof. intros w h. now apply guarded_call. Qed.

Lemma guarded_download1 (fid : str) : guarded (App.get_pdf_from_drive fid).
Proof.
  intros w h. unfold result, trace, App.get_pdf_from_drive, try_, download_media.
  destruct (drive_download w h fid) eqn:E; cbn -[stops_at_failure];
    apply guarded_call; cbn; now rewrite ?E.
Qed.

Lemma guarded_download2 (fid : str) : guarded (App2.get_pdf_from_drive fid).
Proof. exact (guarded_download1 fid). Qed.

Lemma inference_clean (es : list Event) :
  forallb is_inference es = true -> clean es = true.
Proof.
  unfold clean. rewrite !forallb_forall. intros H c Hc.
  specialize (H c Hc). now destruct c.
Qed.

Lemma guarded_process1 pdf q : guarded (App.process_with_gemini pdf q).
Proof.
  intros w h. unfold result, trace.
  destruct (App.process_with_gemini pdf q w h) as [r es] eqn:Hrun.
  apply process_with_gemini_returns1 in Hrun as [[s ->] Hes].
  now apply inference_clean.
Qed.

Lemma guarded_process2 p1 p2 p3 q :
  guarded (App2.process_with_gemini p1 p2 p3 q).
Proof.
  intros w h. unfold result, trace.
  destruct (App2.process_with_gemini p1 p2 p3 q w h) as [r es] eqn:Hrun.
  apply process_with_gemini_returns2 in Hrun as [[s ->] Hes].
  now apply inference_clean.
Qed.

Lemma guarded_for_each (A : Type) (l : list A) (body : A -> M unit) :
  (forall x, guarded (body x)) -> guarded (for_each l body).
Proof.
  intros Hb. induction l as [|x l IH]; cbn [for_each].
  - apply guarded_ret.
  - apply guarded_bind; [apply Hb | intros _; exact IH].
Qed.

Lemma guarded_send_response event R : guarded (App2.send_response event R).
Proof.
  pose proof (@message_chunks_nonempty R) as Hne.
  unfold App2.send_response, message_chunks in *.
  destruct (App2.length_limit <? length R).
  - destruct (App2.chunks R) as [|c0 rest]; [easy|].
    apply guarded_bind; [apply guarded_reply | intros _].
    apply guarded_for_each. intros c. apply guarded_push.
  - apply guarded_reply.
Qed.

Lemma guarded_body1 cfg event :
  guarded (pdf_data <- App.get_pdf_from_drive (App.GOOGLE_DRIVE_PDF_ID cfg) ;;
           push_message (user_id event) processing_text ;;
           gemini_response <- App.process_with_gemini pdf_data (text event) ;;
           reply_message (reply_token event) gemini_response).
Proof.
  apply guarded_bind; [apply guarded_download1 | intros pdf].
  apply guarded_bind; [apply guarded_push | intros _].
  apply guarded_bind; [apply guarded_process1 | intros s].
  apply guarded_reply.
Qed.

Lemma guarded_body2 cfg event :
  guarded (push_message (user_id event) processing_text ;;
           pdf_data1 <- App2.get_pdf_from_drive (App2.GOOGLE_DRIVE_PDF1_ID cfg) ;;
           pdf_data2 <- App2.get_pdf_from_drive (App2.GOOGLE_DRIVE_PDF2_ID cfg) ;;
           pdf_data3 <- App2.get_pdf_from_drive (App2.GOOGLE_DRIVE_PDF3_ID cfg) ;;
           if (length pdf_data1 =? 0) || (length pdf_data2 =? 0)
              || (length pdf_data3 =? 0)
           then reply_message (reply_token event) App2.empty_pdf_text
           else
             gemini_response <-
               App2.process_with_gemini pdf_data1 pdf_data2 pdf_data3
                                        (text event) ;;
             App2.send_response event gemini_response).
Proof.
  apply guarded_bind; [apply guarded_push | intros _].
  apply guarded_bind; [apply guarded_download2 | intros p1].
  apply guarded_bind; [apply guarded_download2 | intros p2].
  apply guarded_bind; [apply guarded_download2 | intros p3].
  destruct ((length p1 =? 0) || (length p2 =? 0) || (length p3 =? 0)).
  - apply guarded_reply.
  - apply guarded_bind; [apply guarded_process2 | intros s].
    apply guarded_send_response.
Qed.

(** The [except Exception as e] clause of both handlers. *)
Lemma guarded_try_reply (body : MessageEvent -> M unit) :
  (forall event, guarded (body event)) ->
  error_reply_protocol
    (fun event =>
       try_ (body event)
            [(isException,
              fun e => reply_message (reply_token event)
                         (request_error_prefix ++ exc_str e))]).
Proof.
  intros Hb w event h. specialize (Hb event w h).
  unfold result, trace, try_ in *.
  destruct (body event w h) as [[[]|e] es]; cbn [fst snd stops_at_failure] in *.
  - now left.
  - right. destruct Hb as (es0 & c & -> & Hc & Hfail).
    cbn [select_clause isException]. unfold reply_message at 1.
    cbn [fst snd]. exists es0, c, e. rewrite <- app_assoc. now repeat split.
Qed.

End Guarded.

(** C7 (amended).  In both programs the handler either returns with no LINE
    or Drive call having raised, or exactly one call of its [try] body
    raised: that call is followed by one reply that carries the text of its
    exception, nothing comes after, and the handler ends as this reply
    ends, returning when it is delivered and raising its exception when it
    is not. *)
Theorem handlers_error_reply (cfg1 : App.Config) (cfg2 : App2.Config) :
  error_reply_protocol (App.handle_text_message cfg1)
  /\ error_reply_protocol (App2.handle_text_message cfg2).
Proof.
  split.
  - apply (guarded_try_reply (fun event => _) (guarded_body1 cfg1)).
  - apply (guarded_try_reply (fun event => _) (guarded_body2 cfg2)).
Qed.

(** Counterexample to C7: the reply token is refused; the reply of the
    answer raises, the error reply raises too, and the exception leaves
    the handler. *)
Lemma error_reply_can_escape :
  trace (App2.handle_text_message Scenario.cfg2 Scenario.event)
        Scenario.reply_refused []
  = [PushMessage (user_id Scenario.event) processing_text (Ok tt);
     DriveDownload (App2.GOOGLE_DRIVE_PDF1_ID Scenario.cfg2) (Ok Scenario.pdf);
     DriveDownload (App2.GOOGLE_DRIVE_PDF2_ID Scenario.cfg2) (Ok Scenario.pdf);
     DriveDownload (App2.GOOGLE_DRIVE_PDF3_ID Scenario.cfg2) (Ok Scenario.pdf);
     GeminiClient (Ok tt);
     FilesUpload Scenario.pdf (Ok 7%N);
     FilesUpload Scenario.pdf (Ok 7%N);
     FilesUpload Scenario.pdf (Ok 7%N);
     GenerateContent [PartFile 7%N; PartFile 7%N; PartFile 7%N]
                     (text Scenario.event) (Ok [111; 107]%N);
     ReplyMessage (reply_token Scenario.event) [111; 107]%N
                  (Raise Scenario.boom);
     ReplyMessage (reply_token Scenario.event)
                  (request_error_prefix ++ exc_str Scenario.boom)
                  (Raise Scenario.boom)]
  /\ result (App2.handle_text_message Scenario.cfg2 Scenario.event)
            Scenario.reply_refused []
     = Raise Scenario.boom
  /\ result (App.handle_text_message Scenario.cfg1 Scenario.event)
            Scenario.reply_refused []
     = Raise Scenario.boom.
Proof. repeat split; vm_compute; reflexivity. Qed.

(** ** The acknowledgment and the downloads *)

Lemma send_response_events event R w h r es :
  App2.send_response event R w h = (r, es) ->
  forallb (fun c => is_push c || is_reply c) es = true.
Proof.
  intros Hrun.
  apply send_response_run in Hrun
    as (c0 & rest & _ & [[_ ->] | [(e & _ & ->) | (e & sent & c & rest' & _ & _ & ->)]]).
  - cbn [forallb is_push is_reply orb andb].
    induction rest as [|x rest IH]; [reflexivity | exact IH].
  - reflexivity.
  - cbn [forallb is_push is_reply orb andb]. rewrite forallb_app.
    cbn [forallb is_push is_reply orb andb]. rewrite andb_true_r.
    induction sent as [|x sent IH]; [reflexivity | exact IH].
Qed.

(** The parts of a handler run that are kept folded: the inference always
    returns and only calls Gemini; the delivery only calls LINE. *)
Ltac use_components :=
  repeat match goal with
  | H : App.process_with_gemini _ _ _ _ = (_, _) |- _ =>
      let Hs := fresh "Hs" in
      apply process_with_gemini_returns1 in H as [[? Hs] ?];
      first [discriminate Hs | injection Hs as <- | idtac]
  | H : App2.process_with_gemini _ _ _ _ _ _ = (_, _) |- _ =>
      let Hs := fresh "Hs" in
      apply process_with_gemini_returns2 in H as [[? Hs] ?];
      first [discriminate Hs | injection Hs as <- | idtac]
  | H : App2.send_response _ _ _ _ = (_, _) |- _ =>
      apply send_response_events in H
  end.

(** An event that is not in a trace, because of its kind. *)
Ltac not_in_trace :=
  match goal with
  | Hin : In ?c ?es, Hall : forallb ?P ?es = true |- _ =>
      let H := fresh in
      pose proof (forallb_In P es c Hall Hin) as H; discriminate H
  end.

(** C8.  In app2-multi-pdf.py the first call of the handler is the push of
    the "processing" acknowledgment to the user of the event: every download
    comes after it, and only once it has been delivered.  The acknowledgment
    is therefore sent in every run, those in which a download fails
    included. *)
Theorem ack_before_fetch (w : World) (cfg : App2.Config)
    (event : MessageEvent) (h : list Event) :
  exists r rest,
    trace (App2.handle_text_message cfg event) w h
    = PushMessage (user_id event) processing_text r :: rest
    /\ forall fid d, In (DriveDownload fid d) rest -> r = Ok tt.
Proof.
  unfold trace.
  destruct (App2.handle_text_message cfg event w h) as [r es] eqn:Hrun.
  unfold App2.handle_text_message in Hrun. cbn [snd].
  inv_run; cbn [app]; (eexists; eexists; split; [reflexivity|]);
    intros fid d Hin.
  all: try match goal with |- Ok ?x = Ok tt => now destruct x end.
  cbn in Hin. destruct Hin as [Hin|[]]. discriminate Hin.
Qed.

(** The acknowledgment of a request whose first download fails. *)
Example ack_then_failed_fetch :
  trace (App2.handle_text_message Scenario.cfg2 Scenario.event)
        Scenario.drive_down []
  = [PushMessage (user_id Scenario.event) processing_text (Ok tt);
     DriveDownload (App2.GOOGLE_DRIVE_PDF1_ID Scenario.cfg2)
                   (Raise Scenario.boom);
     ReplyMessage (reply_token Scenario.event)
                  (request_error_prefix ++ exc_str Scenario.boom) (Ok tt)].
Proof. vm_compute. reflexivity. Qed.

(** In app.py the download comes first: when it fails, no acknowledgment
    is pushed. *)
Example failed_fetch_without_ack :
  trace (App.handle_text_message Scenario.cfg1 Scenario.event)
        Scenario.drive_down []
  = [DriveDownload (App.GOOGLE_DRIVE_PDF_ID Scenario.cfg1)
                   (Raise Scenario.boom);
     ReplyMessage (reply_token Scenario.event)
                  (request_error_prefix ++ exc_str Scenario.boom) (Ok tt)].
Proof. vm_compute. reflexivity. Qed.

(** C5.  In both programs, a run in which a download raises an exception
    issues exactly one reply, whose text is the error prefix followed by
    the text of that exception, and makes no call to the Gemini client. *)
Theorem fetch_failure_single_reply (cfg1 : App.Config) (cfg2 : App2.Config) :
  fetch_failure_protocol (App.handle_text_message cfg1)
  /\ fetch_failure_protocol (App2.handle_text_message cfg2).
Proof.
  split; intros w event h fid e; unfold trace.
  - destruct (App.handle_text_message cfg1 event w h) as [r es] eqn:Hrun.
    unfold App.handle_text_message in Hrun. cbn [snd]. intros Hin.
    inv_run; use_components;
      repeat rewrite in_app_iff in Hin; cbn [In] in Hin;
      repeat match type of Hin with _ \/ _ => destruct Hin as [Hin|Hin] end;
      try discriminate Hin; try contradiction; try not_in_trace.
    injection Hin as -> ->.
    split; [eexists|]; reflexivity.
  - destruct (App2.handle_text_message cfg2 event w h) as [r es] eqn:Hrun.
    unfold App2.handle_text_message in Hrun. cbn [snd]. intros Hin.
    inv_run; use_components;
      repeat rewrite in_app_iff in Hin; cbn [In] in Hin;
      repeat match type of Hin with _ \/ _ => destruct Hin as [Hin|Hin] end;
      try discriminate Hin; try contradiction; try not_in_trace.
    all: injection Hin as -> ->; (split; [eexists|]; reflexivity).
Qed.

Lemma fetch_failure_single_reply_witness :
  In (DriveDownload (App2.GOOGLE_DRIVE_PDF1_ID Scenario.cfg2)
                    (Raise Scenario.boom))
     (trace (App2.handle_text_message Scenario.cfg2 Scenario.event)
            Scenario.drive_down [])
  /\ filter is_inference
       (trace (App2.handle_text_message Scenario.cfg2 Scenario.event)
              Scenario.drive_down []) = [].
Proof.
  assert (H : In (DriveDownload (App2.GOOGLE_DRIVE_PDF1_ID Scenario.cfg2)
                                (Raise Scenario.boom))
                 (trace (App2.handle_text_message Scenario.cfg2 Scenario.event)
                        Scenario.drive_down []))
    by (vm_compute; right; left; reflexivity).
  split; [exact H|].
  exact (proj2 (proj2 (fetch_failure_single_reply Scenario.cfg1 Scenario.cfg2)
                      Scenario.drive_down Scenario.event [] _ _ H)).
Defined.

(** C9.  In app2-multi-pdf.py, when the three downloads return and one of
    the documents has no bytes, the next call is the reply of the fixed
    "empty PDF" text; once it is delivered the handler returns at once; and
    the run makes no call to the Gemini client. *)
Theorem empty_pdf_reply (w : World) (cfg : App2.Config) (event : MessageEvent)
    (h : list Event) (p1 p2 p3 : bytes) (rest : list Event) :
  trace (App2.handle_text_message cfg event) w h
  = PushMessage (user_id event) processing_text (Ok tt)
    :: DriveDownload (App2.GOOGLE_DRIVE_PDF1_ID cfg) (Ok p1)
    :: DriveDownload (App2.GOOGLE_DRIVE_PDF2_ID cfg) (Ok p2)
    :: DriveDownload (App2.GOOGLE_DRIVE_PDF3_ID cfg) (Ok p3)
    :: rest ->
  length p1 = 0 \/ length p2 = 0 \/ length p3 = 0 ->
  exists r rest',
    rest = ReplyMessage (reply_token event) App2.empty_pdf_text r :: rest'
    /\ filter is_inference (trace (App2.handle_text_message cfg event) w h) = []
    /\ (r = Ok tt ->
        rest' = []
        /\ result (App2.handle_text_message cfg event) w h = Ok tt).
Proof.
  unfold trace, result.
  destruct (App2.handle_text_message cfg event w h) as [r es] eqn:Hrun.
  unfold App2.handle_text_message in Hrun. cbn [fst snd].
  intros Htr Hempty.
  inv_run; cbn [app] in Htr; try discriminate Htr;
    inversion Htr; subst; clear Htr.
  all: try match goal with
       | Hb : _ || _ = false |- _ =>
           exfalso;
           destruct Hempty as [E|[E|E]]; rewrite E in Hb; cbn in Hb;
           rewrite ?orb_true_r in Hb; discriminate Hb
       end.
  - eexists; eexists. split; [reflexivity|]. split; [reflexivity|].
    intros _. now destruct x.
  - eexists; eexists. split; [reflexivity|]. split; [reflexivity|].
    intros [=].
Qed.

Lemma empty_pdf_reply_witness :
  filter is_inference
    (trace (App2.handle_text_message Scenario.cfg2 Scenario.event)
           Scenario.empty_files []) = []
  /\ result (App2.handle_text_message Scenario.cfg2 Scenario.event)
            Scenario.empty_files [] = Ok tt.
Proof.
  destruct (@empty_pdf_reply Scenario.empty_files Scenario.cfg2 Scenario.event
              [] [] [] []
              [ReplyMessage (reply_token Scenario.event)
                 App2.empty_pdf_text (Ok tt)])
    as (r & rest' & Hrest & Hinf & Hret).
  - vm_compute. reflexivity.
  - left. reflexivity.
  - split; [exact Hinf|].
    injection Hrest as <- <-. exact (proj2 (Hret eq_refl)).
Defined.

(** ** app.py: one reply for the whole answer *)

(** C10.  In app.py, once the document is downloaded and the acknowledgment
    pushed, whatever [process_with_gemini] returns is the text of the next
    call, a reply with the reply token, whatever its length: the answer is
    neither measured nor cut, no push follows the inference, and once the
    reply is delivered the handler returns, having issued that one reply. *)
Theorem whole_answer_single_reply (w : World) (cfg : App.Config)
    (event : MessageEvent) (h : list Event) (pdf : bytes) (R : str)
    (es_p : list Event) :
  let fetched := DriveDownload (App.GOOGLE_DRIVE_PDF_ID cfg) (Ok pdf) in
  let acked := PushMessage (user_id event) processing_text (Ok tt) in
  drive_download w h (App.GOOGLE_DRIVE_PDF_ID cfg) = Ok pdf ->
  line_push w (h ++ [fetched]) (user_id event) processing_text = Ok tt ->
  App.process_with_gemini pdf (text event) w ((h ++ [fetched]) ++ [acked])
  = (Ok R, es_p) ->
  exists r rest,
    trace (App.handle_text_message cfg event) w h
    = fetched :: acked :: es_p ++ ReplyMessage (reply_token event) R r :: rest
    /\ filter is_push (es_p ++ ReplyMessage (reply_token event) R r :: rest) = []
    /\ (r = Ok tt ->
        rest = []
        /\ result (App.handle_text_message cfg event) w h = Ok tt).
Proof.
  intros fetched acked Hd Hp Hproc. subst fetched acked.
  assert (Hpush : filter is_push es_p = []).
  { pose proof Hproc as Hc. apply process_with_gemini_returns1 in Hc as [_ Hc].
    clear -Hc. induction es_p as [|c es IH]; [reflexivity|].
    cbn [forallb] in Hc. apply andb_true_iff in Hc as [Hc1 Hc2].
    destruct c; try discriminate Hc1; exact (IH Hc2). }
  unfold trace, result.
  destruct (App.handle_text_message cfg event w h) as [r es] eqn:Hrun.
  unfold App.handle_text_message in Hrun. cbn [fst snd].
  inv_run.
  all: match goal with
       | H : drive_download _ _ _ = _ |- _ =>
           rewrite Hd in H; first [discriminate H | injection H as <-]
       end.
  all: match goal with
       | H : line_push _ _ _ _ = _ |- _ =>
           rewrite Hp in H; first [discriminate H | injection H as <-]
       end.
  all: match goal with
       | H : App.process_with_gemini _ _ _ _ = _ |- _ =>
           rewrite Hproc in H; first [discriminate H | injection H as <- <-]
       end.
  - exists (Ok x), []. cbn [app]. split; [reflexivity|].
    rewrite filter_app, Hpush. split; [reflexivity|]. intros _. now destruct x.
  - eexists (Raise _), [_]. cbn [app]. rewrite <- app_assoc. cbn [app].
    split; [reflexivity|].
    rewrite filter_app, Hpush. split; [reflexivity|]. intros [=].
Qed.

Lemma whole_answer_single_reply_witness :
  exists r rest,
    trace (App.handle_text_message Scenario.cfg1 Scenario.event)
          Scenario.long_answer []
    = DriveDownload (App.GOOGLE_DRIVE_PDF_ID Scenario.cfg1) (Ok Scenario.pdf)
      :: PushMessage (user_id Scenario.event) processing_text (Ok tt)
      :: [GeminiClient (Ok tt);
          GenerateContent [PartBytes Scenario.pdf] (text Scenario.event)
                          (Ok Scenario.nine_thousand_a)]
      ++ ReplyMessage (reply_token Scenario.event) Scenario.nine_thousand_a r
      :: rest
    /\ filter is_push
         ([GeminiClient (Ok tt);
           GenerateContent [PartBytes Scenario.pdf] (text Scenario.event)
                           (Ok Scenario.nine_thousand_a)]
          ++ ReplyMessage (reply_token Scenario.event)
               Scenario.nine_thousand_a r :: rest) = []
    /\ (r = Ok tt ->
        rest = []
        /\ result (App.handle_text_message Scenario.cfg1 Scenario.event)
                  Scenario.long_answer [] = Ok tt).
Proof.
  exact (@whole_answer_single_reply
           Scenario.long_answer Scenario.cfg1 Scenario.event []
           Scenario.pdf Scenario.nine_thousand_a
           [GeminiClient (Ok tt);
            GenerateContent [PartBytes Scenario.pdf] (text Scenario.event)
                            (Ok Scenario.nine_thousand_a)]
           eq_refl eq_refl eq_refl).
Defined.

(** A 9000-character answer in app.py: one reply of 9000 characters. *)
Example nine_thousand_in_one_reply :
  map (fun ev => match ev with
                 | ReplyMessage _ t _ => (true, length t)
                 | PushMessage _ t _ => (false, length t)
                 | _ => (false, 0)
                 end)
      (filter (fun ev => is_reply ev || is_push ev)
         (trace (App.handle_text_message Scenario.cfg1 Scenario.event)
                Scenario.long_answer []))
  = [(false, 15); (true, 9 * 1000)].
Proof. vm_compute. reflexivity. Qed.

(** ** Timeouts of the inference *)

(** C6 (amended).  Neither program lets an exception of the inference out
    of [process_with_gemini].  In app2-multi-pdf.py a timeout raised by
    [generate_content] is answered with the fixed timeout text; in app.py,
    which has no clause for timeouts, every exception raised by
    [generate_content] is answered with the generic error prefix followed
    by the text of the exception. *)
Theorem inference_timeout_answer (w : World) (h : list Event)
    (pdf p1 p2 p3 : bytes) (q : str) :
  (exists s, result (App2.process_with_gemini p1 p2 p3 q) w h = Ok s)
  /\ (exists s, result (App.process_with_gemini pdf q) w h = Ok s)
  /\ (forall parts q' e,
        In (GenerateContent parts q' (Raise e))
           (trace (App2.process_with_gemini p1 p2 p3 q) w h) ->
        isTimeoutException e = true ->
        result (App2.process_with_gemini p1 p2 p3 q) w h
        = Ok App2.timeout_text)
  /\ (forall parts q' e,
        In (GenerateContent parts q' (Raise e))
           (trace (App.process_with_gemini pdf q) w h) ->
        result (App.process_with_gemini pdf q) w h
        = Ok (query_error_prefix ++ exc_str e)).
Proof.
  unfold result, trace.
  destruct (App2.process_with_gemini p1 p2 p3 q w h) as [r2 es2] eqn:H2.
  destruct (App.process_with_gemini pdf q w h) as [r1 es1] eqn:H1.
  cbn [fst snd]. repeat split.
  - now apply process_with_gemini_returns2 in H2 as [Hs _].
  - now apply process_with_gemini_returns1 in H1 as [Hs _].
  - intros parts q' e Hin Ht. eapply process_with_gemini_timeout2; eassumption.
  - intros parts q' e Hin. eapply process_with_gemini_failure1; eassumption.
Qed.

Lemma inference_timeout_answer_witness :
  isTimeoutException Scenario.timed_out = true
  /\ result (App2.process_with_gemini Scenario.pdf Scenario.pdf Scenario.pdf
                                      (text Scenario.event))
            Scenario.gemini_timeout []
     = Ok App2.timeout_text.
Proof.
  split; [reflexivity|].
  refine (proj1 (proj2 (proj2
            (@inference_timeout_answer Scenario.gemini_timeout []
               Scenario.pdf Scenario.pdf Scenario.pdf Scenario.pdf
               (text Scenario.event))))
            [PartFile 7%N; PartFile 7%N; PartFile 7%N] (text Scenario.event)
            Scenario.timed_out _ eq_refl).
  vm_compute. do 4 right. left. reflexivity.
Defined.

(** Counterexample to C6: in app.py a timeout of [generate_content] is
    answered with the generic prefix and the text of the exception, which
    is not the fixed timeout text. *)
Lemma timeout_text_not_fixed_in_app :
  isTimeoutException Scenario.timed_out = true
  /\ trace (App.process_with_gemini Scenario.pdf (text Scenario.event))
           Scenario.gemini_timeout []
     = [GeminiClient (Ok tt);
        GenerateContent [PartBytes Scenario.pdf] (text Scenario.event)
                        (Raise Scenario.timed_out)]
  /\ result (App.process_with_gemini Scenario.pdf (text Scenario.event))
            Scenario.gemini_timeout []
     = Ok (query_error_prefix ++ exc_str Scenario.timed_out)
  /\ result (App.process_with_gemini Scenario.pdf (text Scenario.event))
            Scenario.gemini_timeout []
     <> Ok App2.timeout_text.
Proof.
  repeat split; try (vm_compute; reflexivity).
  vm_compute. discriminate.
Qed.

(** ** The webhook *)

Lemma callback_with_contract (on_text : MessageEvent -> M unit) :
  callback_contract on_text (callback_with on_text).
Proof.
  intros w body signature h.
  unfold result, callback_with, bind, try_, WebhookHandler_handle.
  destruct (signature_valid w body signature).
  - split; [intros [=]|]. split.
    + intros _.
      destruct (for_each _ _ w h) as [[u|e] es]; cbn [fst]; [|intros [=]].
      intros _. now split.
    + intros e _.
      destruct (for_each _ _ w h) as [[u|e'] es]; cbn [fst]; [intros [=]|].
      intros [= ->] He. cbn [select_clause]. now rewrite He.
  - split; [|split; [intros [=] | intros e [=]]].
    intros _. cbn. now split.
Qed.

(** C4 (amended).  In both programs [callback] answers 400, without running
    any handler, when the signature does not validate, and "OK" with status
    200 when it validates and the dispatch of the events returns; when the
    dispatch raises, which happens when the error reply of a handler raises,
    the exception leaves [callback] and no "OK" is returned. *)
Theorem callback_status (cfg1 : App.Config) (cfg2 : App2.Config) :
  callback_contract (App.handle_text_message cfg1) (App.callback cfg1)
  /\ callback_contract (App2.handle_text_message cfg2) (App2.callback cfg2).
Proof. split; apply callback_with_contract. Qed.

Lemma callback_status_witness :
  (signature_valid Scenario.calm [] [] = true
   /\ flask_status (result (App2.callback Scenario.cfg2 [] []) Scenario.calm [])
      = 200)
  /\ (signature_valid Scenario.forged [] [] = false
      /\ flask_status
           (result (App2.callback Scenario.cfg2 [] []) Scenario.forged [])
         = 400).
Proof.
  split; (split; [reflexivity|]).
  - refine (proj2 (proj1 (proj2
              (proj2 (callback_status Scenario.cfg1 Scenario.cfg2)
                     Scenario.calm [] [] [])) eq_refl _)).
    vm_compute. reflexivity.
  - exact (proj2 (proj1
             (proj2 (callback_status Scenario.cfg1 Scenario.cfg2)
                    Scenario.forged [] [] []) eq_refl)).
Defined.

(** Counterexample to C4: the signature validates, the reply token is
    refused, the error reply of the handler raises, and the request ends
    with that exception, status 500, instead of "OK". *)
Lemma valid_signature_without_ok :
  signature_valid Scenario.reply_refused [] [] = true
  /\ result (App2.callback Scenario.cfg2 [] []) Scenario.reply_refused []
     = Raise Scenario.boom
  /\ flask_status
       (result (App2.callback Scenario.cfg2 [] []) Scenario.reply_refused [])
     = 500
  /\ flask_status
       (result (App.callback Scenario.cfg1 [] []) Scenario.reply_refused [])
     = 500.
Proof. repeat split; vm_compute; reflexivity. Qed.

(** * Further properties *)

(** ** The chunker on every response *)

Lemma chunks_count_bounds (R : str) :
  length R <= App2.chunk_size * length (App2.chunks R)
  < length R + App2.chunk_size.
Proof.
  pose proof chunk_size_pos as Cpos.
  rewrite chunks_length. destruct (length R) as [|n] eqn:E.
  - replace (Py.range_len 0 0 App2.chunk_size) with 0 by reflexivity. lia.
  - pose proof (range_len_bounds Cpos (n := S n) ltac:(lia)) as B.
    destruct (Py.range_len 0 (S n) App2.chunk_size) as [|m]; [nia|].
    replace (S m - 1) with m in B by lia. nia.
Qed.

Lemma chunks_each_bounded (R : str) :
  Forall (fun chunk => 1 <= length chunk <= App2.chunk_size) (App2.chunks R).
Proof.
  pose proof chunk_size_pos as Cpos.
  pose proof (chunks_count_bounds R) as B.
  apply Forall_forall. intros c Hc.
  apply (In_nth _ _ []) in Hc as (i & Hi & <-).
  rewrite chunk_lengths by exact Hi.
  unfold str in *.
  assert (App2.chunk_size * i + 1 <= length R) by nia.
  lia.
Qed.

(** X1.  For every response, the empty one included, the slices of line 205
    are non-empty, have at most 4000 characters, give back the response when
    concatenated, and their number [n] is the ceiling of [len / 4000]:
    [len <= 4000 * n < len + 4000].  In particular the empty response has
    no slice, and a response of more than 4000 characters has at least
    two. *)
Theorem chunks_bounds (R : str) :
  concat (App2.chunks R) = R
  /\ Forall (fun chunk => 1 <= length chunk <= 4000) (App2.chunks R)
  /\ length R <= 4000 * length (App2.chunks R) < length R + 4000.
Proof.
  change 4000 with App2.chunk_size.
  split; [apply chunks_concat|].
  split; [apply chunks_each_bounded | apply chunks_count_bounds].
Qed.

(** ** The delivery of the answer, call by call *)

Lemma limits_ordered : App2.chunk_size <= App2.length_limit.
Proof. apply Nat.leb_le. vm_compute. reflexivity. Qed.

Lemma message_chunks_fit (R : str) :
  Forall (fun chunk => length chunk <= App2.length_limit) (message_chunks R).
Proof.
  unfold message_chunks.
  destruct (Nat.ltb_spec App2.length_limit (length R)) as [Hlt|Hle].
  - pose proof limits_ordered.
    eapply Forall_impl; [|exact (chunks_each_bounded R)].
    cbv beta. intros c Hc. lia.
  - now constructor.
Qed.

Section DeliveryCalls.

Variable w : World.
Variable event : MessageEvent.

Let push_ok (chunk : str) : Event :=
  PushMessage (user_id event) chunk (Ok tt).

Lemma planned_calls_eq (R chunk0 : str) (rest : list str) :
  message_chunks R = chunk0 :: rest ->
  planned_calls event R
  = ReplyMessage (reply_token event) chunk0 (Ok tt) :: map push_ok rest.
Proof. unfold planned_calls. now intros ->. Qed.

(** The texts of the calls of a delivery are chunks of the response. *)
Lemma send_response_texts (R : str) h r es :
  App2.send_response event R w h = (r, es) ->
  Forall (fun c => exists chunk,
              In chunk (message_chunks R) /\ line_text c = Some chunk) es.
Proof.
  intros Hrun.
  apply send_response_run in Hrun
    as (c0 & rest & Hc & [[_ ->] | [(e & _ & ->) | (e & sent & c & rest' & _ & -> & ->)]]);
    rewrite Hc.
  - constructor; [exists c0; split; [now left | reflexivity]|].
    apply Forall_forall. intros x Hx. apply in_map_iff in Hx as (c & <- & Hin).
    exists c. split; [now right | reflexivity].
  - constructor; [|constructor]. exists c0. split; [now left | reflexivity].
  - constructor; [exists c0; split; [now left | reflexivity]|].
    apply Forall_app. split.
    + apply Forall_forall. intros x Hx. apply in_map_iff in Hx as (c' & <- & Hin).
      exists c'. split; [right; apply in_or_app; now left | reflexivity].
    + constructor; [|constructor]. exists c.
      split; [right; apply in_or_app; right; now left | reflexivity].
Qed.

End DeliveryCalls.

(** X2.  Every message that the delivery block sends for a response,
    whatever the response and whatever the calls answer, has at most 5000
    characters. *)
Theorem answer_messages_within_limit (w : World) (event : MessageEvent)
    (R : str) (h : list Event) :
  Forall within_limit (trace (App2.send_response event R) w h).
Proof.
  unfold trace.
  destruct (App2.send_response event R w h) as [r es] eqn:Hrun. cbn [snd].
  apply send_response_texts in Hrun.
  pose proof (message_chunks_fit R) as Hfit.
  rewrite Forall_forall in Hfit.
  eapply Forall_impl; [|exact Hrun]. cbv beta.
  intros c (chunk & Hin & Ht). unfold within_limit. rewrite Ht.
  now apply Hfit.
Qed.

(** X3.  A delivery makes the planned calls in order and stops at the first
    one that raises: when it returns, the calls made are the planned ones;
    when it raises [e], the calls before the last are the first planned
    ones, all delivered, the last call is the next planned one and it is
    the call that raised [e].  No chunk is sent twice or skipped, and the
    chunks after a failed call are never sent. *)
Theorem delivery_stops_at_failure (w : World) (event : MessageEvent)
    (R : str) (h : list Event) :
  let es := trace (App2.send_response event R) w h in
  match result (App2.send_response event R) w h with
  | Ok _ => es = planned_calls event R
  | Raise e =>
      exists es0 c,
        es = es0 ++ [c]
        /\ length es0 < length (planned_calls event R)
        /\ es0 = firstn (length es0) (planned_calls event R)
        /\ delivered c = nth (length es0) (planned_calls event R) c
        /\ failure c = Some e
  end.
Proof.
  unfold trace, result.
  destruct (App2.send_response event R w h) as [r es] eqn:Hrun. cbn [fst snd].
  apply send_response_run in Hrun
    as (c0 & rest & Hc & [[-> ->] | [(e & -> & ->) | (e & sent & c & rest' & -> & -> & ->)]]);
    rewrite (planned_calls_eq event _ Hc).
  - reflexivity.
  - exists [], (ReplyMessage (reply_token event) c0 (Raise e)).
    cbn [app length firstn nth delivered failure raised]. repeat split. lia.
  - exists (ReplyMessage (reply_token event) c0 (Ok tt)
            :: map (fun chunk => PushMessage (user_id event) chunk (Ok tt)) sent),
           (PushMessage (user_id event) c (Raise e)).
    rewrite map_app. cbn [map length app firstn nth].
    rewrite !length_app, !length_map. cbn [length].
    repeat split.
    + lia.
    + f_equal. rewrite <- (length_map (fun chunk => PushMessage (user_id event) chunk (Ok tt)) sent) at 1.
      now rewrite firstn_app, Nat.sub_diag, firstn_all, app_nil_r.
    + rewrite <- (length_map (fun chunk => PushMessage (user_id event) chunk (Ok tt)) sent).
      now rewrite nth_middle.
Qed.

(** ** The inference, call by call *)

(** [process_with_gemini] calls [generate_content] at most once, as its
    last call, and its value is made from the outcome of that call. *)
Lemma process_with_gemini_generate2 p1 p2 p3 q w h r es :
  App2.process_with_gemini p1 p2 p3 q w h = (r, es) ->
  filter is_generate es = []
  \/ (exists pre parts g,
         es = pre ++ [GenerateContent parts q g]
         /\ filter is_generate pre = []
         /\ r = Ok (answer_of2 g)).
Proof.
  unfold App2.process_with_gemini. intros Hrun.
  inv_run; cbn [app]; try (left; reflexivity); right.
  - eexists [_; _; _; _], _, (Ok _). repeat split.
  - eexists [_; _; _; _], _, (Raise _). cbn [answer_of2]. rewrite Heqb.
    repeat split.
  - eexists [_; _; _; _], _, (Raise _). cbn [answer_of2]. rewrite Heqb.
    repeat split.
Qed.

Lemma process_with_gemini_generate1 pdf q w h r es :
  App.process_with_gemini pdf q w h = (r, es) ->
  filter is_generate es = []
  \/ (exists pre parts g,
         es = pre ++ [GenerateContent parts q g]
         /\ filter is_generate pre = []
         /\ r = Ok (answer_of1 g)).
Proof.
  unfold App.process_with_gemini. intros Hrun.
  inv_run; cbn [app]; try (left; reflexivity); right.
  - eexists [_], _, (Ok _). repeat split.
  - eexists [_], _, (Raise _). repeat split.
Qed.

(** X4.  In app2-multi-pdf.py, when the construction of the Gemini client
    or the upload of a document raises [e], a timeout included,
    [process_with_gemini] makes no call to [generate_content] and returns
    the generic error text followed by [str(e)]: the fixed timeout text is
    only for a timeout of [generate_content] itself. *)
Theorem setup_failure_answer (p1 p2 p3 : bytes) (q : str) (w : World)
    (h : list Event) (c : Event) (e : Exc) :
  In c (trace (App2.process_with_gemini p1 p2 p3 q) w h) ->
  setup_failure c = Some e ->
  result (App2.process_with_gemini p1 p2 p3 q) w h
  = Ok (query_error_prefix ++ exc_str e)
  /\ filter is_generate (trace (App2.process_with_gemini p1 p2 p3 q) w h) = [].
Proof.
  unfold trace, result.
  destruct (App2.process_with_gemini p1 p2 p3 q w h) as [r es] eqn:Hrun.
  unfold App2.process_with_gemini in Hrun. cbn [fst snd]. intros Hin Hc.
  inv_run; cbn [app In] in Hin;
    repeat match type of Hin with _ \/ _ => destruct Hin as [Hin|Hin] end;
    try contradiction; subst c; cbn in Hc; try discriminate Hc;
    injection Hc as ->; split; reflexivity.
Qed.

Lemma setup_failure_answer_witness :
  isTimeoutException Scenario.timed_out = true
  /\ result (App2.process_with_gemini Scenario.pdf Scenario.pdf Scenario.pdf
                                      (text Scenario.event))
            Scenario.upload_timeout []
     = Ok (query_error_prefix ++ exc_str Scenario.timed_out).
Proof.
  split; [reflexivity|].
  refine (proj1 (@setup_failure_answer
                   Scenario.pdf Scenario.pdf Scenario.pdf (text Scenario.event)
                   Scenario.upload_timeout []
                   (FilesUpload Scenario.pdf (Raise Scenario.timed_out))
                   Scenario.timed_out _ eq_refl)).
  vm_compute. right. left. reflexivity.
Defined.

(** X5.  In app2-multi-pdf.py a call to [generate_content] is the last call
    of [process_with_gemini]; it comes after the client and the three
    uploads returned, its contents are the files that the uploads of the
    first, second and third document returned, in that order, and its
    query is the query given; the function returns the response text when
    the call returns and, when it raises an exception that is not a
    timeout, the generic error text followed by [str(e)]. *)
Theorem generate_content_call2 (p1 p2 p3 : bytes) (q : str) (w : World)
    (h : list Event) (parts : list Part) (q' : str) (g : Result str) :
  In (GenerateContent parts q' g)
     (trace (App2.process_with_gemini p1 p2 p3 q) w h) ->
  exists f1 f2 f3,
    trace (App2.process_with_gemini p1 p2 p3 q) w h
    = [GeminiClient (Ok tt); FilesUpload p1 (Ok f1); FilesUpload p2 (Ok f2);
       FilesUpload p3 (Ok f3);
       GenerateContent [PartFile f1; PartFile f2; PartFile f3] q g]
    /\ parts = [PartFile f1; PartFile f2; PartFile f3] /\ q' = q
    /\ result (App2.process_with_gemini p1 p2 p3 q) w h
       = Ok match g with
            | Ok response_text => response_text
            | Raise e =>
                if isTimeoutException e then App2.timeout_text
                else query_error_prefix ++ exc_str e
            end.
Proof.
  unfold trace, result.
  destruct (App2.process_with_gemini p1 p2 p3 q w h) as [r es] eqn:Hrun.
  unfold App2.process_with_gemini in Hrun. cbn [fst snd]. intros Hin.
  inv_run; cbn [app In] in Hin;
    repeat match type of Hin with _ \/ _ => destruct Hin as [Hin|Hin] end;
    try contradiction; try discriminate Hin;
    injection Hin as <- <- <-;
    repeat match goal with x : unit |- _ => destruct x end;
    eexists _, _, _; rewrite ?Heqb; repeat split.
Qed.

Lemma generate_content_call2_witness :
  result (App2.process_with_gemini Scenario.pdf Scenario.pdf Scenario.pdf
                                   (text Scenario.event))
         Scenario.gemini_down []
  = Ok (query_error_prefix ++ exc_str Scenario.boom).
Proof.
  destruct (@generate_content_call2
              Scenario.pdf Scenario.pdf Scenario.pdf (text Scenario.event)
              Scenario.gemini_down []
              [PartFile 7%N; PartFile 7%N; PartFile 7%N] (text Scenario.event)
              (Raise Scenario.boom))
    as (f1 & f2 & f3 & _ & _ & _ & Hr).
  - vm_compute. do 4 right. left. reflexivity.
  - exact Hr.
Defined.

(** X6.  In app.py a call to [generate_content] is the last call of
    [process_with_gemini]; it comes after the client was built, its
    contents are the bytes of the document, as one PDF part, and its query
    is the query given; the function returns the response text when the
    call returns. *)
Theorem generate_content_call1 (pdf : bytes) (q : str) (w : World)
    (h : list Event) (parts : list Part) (q' : str) (g : Result str) :
  In (GenerateContent parts q' g) (trace (App.process_with_gemini pdf q) w h) ->
  trace (App.process_with_gemini pdf q) w h
  = [GeminiClient (Ok tt); GenerateContent [PartBytes pdf] q g]
  /\ parts = [PartBytes pdf] /\ q' = q
  /\ result (App.process_with_gemini pdf q) w h
     = Ok match g with
          | Ok response_text => response_text
          | Raise e => query_error_prefix ++ exc_str e
          end.
Proof.
  unfold trace, result.
  destruct (App.process_with_gemini pdf q w h) as [r es] eqn:Hrun.
  unfold App.process_with_gemini in Hrun. cbn [fst snd]. intros Hin.
  inv_run; cbn [app In] in Hin;
    repeat match type of Hin with _ \/ _ => destruct Hin as [Hin|Hin] end;
    try contradiction; try discriminate Hin;
    injection Hin as <- <- <-;
    repeat match goal with x : unit |- _ => destruct x end;
    repeat split.
Qed.

Lemma generate_content_call1_witness :
  result (App.process_with_gemini Scenario.pdf (text Scenario.event))
         Scenario.calm []
  = Ok [111; 107]%N.
Proof.
  refine (proj2 (proj2 (proj2
            (@generate_content_call1
               Scenario.pdf (text Scenario.event) Scenario.calm []
               [PartBytes Scenario.pdf] (text Scenario.event)
               (Ok [111; 107]%N) _)))).
  vm_compute. right. left. reflexivity.
Defined.

(** ** What every event of a run satisfies *)

Section Emits.

Variable P : Event -> Prop.

Lemma emits_ret (A : Type) (a : A) : emits P (ret a).
Proof. intros w h. constructor. Qed.

Lemma emits_raise (A : Type) (e : Exc) : emits P (@raise A e).
Proof. intros w h. constructor. Qed.

Lemma emits_bind (A B : Type) (m : M A) (f : A -> M B) :
  emits P m -> (forall a, emits P (f a)) -> emits P (bind m f).
Proof.
  intros Hm Hf w h. specialize (Hm w h). unfold trace, bind in *.
  destruct (m w h) as [[a|e] es1]; cbn [snd] in *; [|exact Hm].
  specialize (Hf a w (h ++ es1)). unfold trace in Hf.
  destruct (f a w (h ++ es1)) as [r es2]. cbn [snd] in *.
  apply Forall_app. now split.
Qed.

Lemma emits_try (A : Type) (m : M A) clauses :
  emits P m -> (forall e, emits P (select_clause clauses e)) ->
  emits P (try_ m clauses).
Proof.
  intros Hm Hc w h. specialize (Hm w h). unfold trace, try_ in *.
  destruct (m w h) as [[a|e] es1]; cbn [snd] in *; [exact Hm|].
  specialize (Hc e w (h ++ es1)). unfold trace in Hc.
  destruct (select_clause clauses e w (h ++ es1)) as [r es2]. cbn [snd] in *.
  apply Forall_app. now split.
Qed.

Lemma emits_for_each (A : Type) (l : list A) (body : A -> M unit) :
  (forall x, emits P (body x)) -> emits P (for_each l body).
Proof.
  intros Hb. induction l as [|x l IH]; cbn [for_each].
  - apply emits_ret.
  - apply emits_bind; [apply Hb | intros _; exact IH].
Qed.

Lemma emits_push to t :
  (forall r, P (PushMessage to t r)) -> emits P (push_message to t).
Proof. intros H w h. constructor; [apply H | constructor]. Qed.

Lemma emits_reply tok t :
  (forall r, P (ReplyMessage tok t r)) -> emits P (reply_message tok t).
Proof. intros H w h. constructor; [apply H | constructor]. Qed.

Lemma emits_download fid :
  (forall r, P (DriveDownload fid r)) -> emits P (download_media fid).
Proof. intros H w h. constructor; [apply H | constructor]. Qed.

Lemma emits_inference (A : Type) (m : M A) :
  (forall c, is_inference c = true -> P c) ->
  (forall w h, forallb is_inference (trace m w h) = true) ->
  emits P m.
Proof.
  intros HP Hm w h. specialize (Hm w h). rewrite forallb_forall in Hm.
  apply Forall_forall. intros c Hc. apply HP, Hm, Hc.
Qed.

End Emits.

Lemma process_with_gemini_inference1 pdf q w h :
  forallb is_inference (trace (App.process_with_gemini pdf q) w h) = true.
Proof.
  unfold trace. destruct (App.process_with_gemini pdf q w h) as [r es] eqn:E.
  now apply process_with_gemini_returns1 in E.
Qed.

Lemma process_with_gemini_inference2 p1 p2 p3 q w h :
  forallb is_inference (trace (App2.process_with_gemini p1 p2 p3 q) w h) = true.
Proof.
  unfold trace.
  destruct (App2.process_with_gemini p1 p2 p3 q w h) as [r es] eqn:E.
  now apply process_with_gemini_returns2 in E.
Qed.

(** X7.  In both programs every LINE call of a run goes to the sender of
    the event being handled: every push is addressed to its user
    identifier and every reply is made under its reply token, the
    acknowledgment, the chunks of the answer and the error replies
    alike. *)
Theorem messages_go_to_sender (cfg1 : App.Config) (cfg2 : App2.Config)
    (event : MessageEvent) :
  emits (addressed event) (App.handle_text_message cfg1 event)
  /\ emits (addressed event) (App2.handle_text_message cfg2 event).
Proof.
  assert (Hinf : forall c, is_inference c = true -> addressed event c)
    by (intros c Hc; destruct c; try discriminate Hc; exact I).
  split.
  - apply emits_try.
    + apply emits_bind.
      { apply emits_try; [now apply emits_download|].
        intros e. apply emits_raise. }
      intros pdf. apply emits_bind; [now apply emits_push | intros _].
      apply emits_bind; [|intros s; now apply emits_reply].
      apply emits_inference; [exact Hinf|].
      apply process_with_gemini_inference1.
    + intros e. cbn [select_clause isException]. now apply emits_reply.
  - assert (Hdl : forall fid, emits (addressed event)
                                (App2.get_pdf_from_drive fid)).
    { intros fid. apply emits_try; [now apply emits_download|].
      intros e. apply emits_raise. }
    apply emits_try.
    + apply emits_bind; [now apply emits_push | intros _].
      apply emits_bind; [apply Hdl | intros p1].
      apply emits_bind; [apply Hdl | intros p2].
      apply emits_bind; [apply Hdl | intros p3].
      destruct ((length p1 =? 0) || (length p2 =? 0) || (length p3 =? 0)).
      * now apply emits_reply.
      * apply emits_bind.
        { apply emits_inference; [exact Hinf|].
          apply process_with_gemini_inference2. }
        intros R. unfold App2.send_response.
        destruct (App2.length_limit <? length R); [|now apply emits_reply].
        destruct (App2.chunks R) as [|c0 rest]; [apply emits_raise|].
        apply emits_bind; [now apply emits_reply | intros _].
        apply emits_for_each. intros c. now apply emits_push.
    + intros e. cbn [select_clause isException]. now apply emits_reply.
Qed.

(** ** The order of the steps of a request *)

Lemma downloads_app (es1 es2 : list Event) :
  downloads (es1 ++ es2) = downloads es1 ++ downloads es2.
Proof. apply flat_map_app. Qed.

Lemma inference_no_download (es : list Event) :
  forallb is_inference es = true -> downloads es = [].
Proof.
  induction es as [|c es IH]; [reflexivity|]. cbn [forallb].
  intros H. apply andb_true_iff in H as [Hc Hes].
  destruct c; try discriminate Hc; exact (IH Hes).
Qed.

Lemma delivery_no_download (es : list Event) :
  forallb (fun c => is_push c || is_reply c) es = true -> downloads es = [].
Proof.
  induction es as [|c es IH]; [reflexivity|]. cbn [forallb].
  intros H. apply andb_true_iff in H as [Hc Hes].
  destruct c; try discriminate Hc; exact (IH Hes).
Qed.

(** The members of a trace given as a concatenation, one by one. *)
Ltac split_in H :=
  repeat first [ rewrite in_app_iff in H
               | progress cbn [In] in H
               | match type of H with
                 | _ \/ _ => destruct H as [H|H]
                 | False => contradiction
                 end ].

(** X8.  In app2-multi-pdf.py the documents are requested from Drive one
    after the other in the order PDF1, PDF2, PDF3, and no request is made
    twice: the identifiers requested in a run are the three of the
    configuration or the first [k < 3] of them, and in the second case the
    run makes no call to the Gemini client. *)
Theorem downloads_in_order (w : World) (cfg : App2.Config)
    (event : MessageEvent) (h : list Event) :
  let ids := [App2.GOOGLE_DRIVE_PDF1_ID cfg; App2.GOOGLE_DRIVE_PDF2_ID cfg;
              App2.GOOGLE_DRIVE_PDF3_ID cfg] in
  let es := trace (App2.handle_text_message cfg event) w h in
  downloads es = ids
  \/ (exists k, k < 3 /\ downloads es = firstn k ids
                /\ filter is_inference es = []).
Proof.
  unfold trace.
  destruct (App2.handle_text_message cfg event w h) as [r es] eqn:Hrun.
  unfold App2.handle_text_message in Hrun. cbn [snd].
  inv_run; use_components;
    repeat rewrite downloads_app;
    repeat match goal with
           | H : forallb is_inference ?es = true |- _ =>
               rewrite (inference_no_download es H)
           | H : forallb (fun c => is_push c || is_reply c) ?es = true |- _ =>
               rewrite (delivery_no_download es H)
           end;
    cbn [downloads flat_map app];
    first [ left; reflexivity
          | right; exists 2; split; [lia | split; reflexivity]
          | right; exists 1; split; [lia | split; reflexivity]
          | right; exists 0; split; [lia | split; reflexivity] ].
Qed.

(** X9.  In app2-multi-pdf.py the Gemini client is called only in a run
    that began with the acknowledgment delivered and the three documents
    downloaded, none of them empty. *)
Theorem inference_needs_documents (w : World) (cfg : App2.Config)
    (event : MessageEvent) (h : list Event) (c : Event) :
  In c (trace (App2.handle_text_message cfg event) w h) ->
  is_inference c = true ->
  exists p1 p2 p3 rest,
    trace (App2.handle_text_message cfg event) w h
    = PushMessage (user_id event) processing_text (Ok tt)
      :: DriveDownload (App2.GOOGLE_DRIVE_PDF1_ID cfg) (Ok p1)
      :: DriveDownload (App2.GOOGLE_DRIVE_PDF2_ID cfg) (Ok p2)
      :: DriveDownload (App2.GOOGLE_DRIVE_PDF3_ID cfg) (Ok p3)
      :: rest
    /\ 0 < length p1 /\ 0 < length p2 /\ 0 < length p3.
Proof.
  unfold trace.
  destruct (App2.handle_text_message cfg event w h) as [r es] eqn:Hrun.
  unfold App2.handle_text_message in Hrun. cbn [snd]. intros Hin Hc.
  inv_run;
    repeat match goal with x : unit |- _ => destruct x end.
  all: try match goal with
       | Hb : _ || _ = false |- _ =>
           apply orb_false_iff in Hb as [Hb ?Hb3];
           apply orb_false_iff in Hb as [?Hb1 ?Hb2];
           rewrite Nat.eqb_neq in *;
           cbn [app]; eexists _, _, _, _;
           (split; [reflexivity | repeat split; lia])
       end.
  all: split_in Hin; subst c; discriminate Hc.
Qed.

Lemma inference_needs_documents_witness :
  exists p1 p2 p3 rest,
    trace (App2.handle_text_message Scenario.cfg2 Scenario.event)
          Scenario.calm []
    = PushMessage (user_id Scenario.event) processing_text (Ok tt)
      :: DriveDownload (App2.GOOGLE_DRIVE_PDF1_ID Scenario.cfg2) (Ok p1)
      :: DriveDownload (App2.GOOGLE_DRIVE_PDF2_ID Scenario.cfg2) (Ok p2)
      :: DriveDownload (App2.GOOGLE_DRIVE_PDF3_ID Scenario.cfg2) (Ok p3)
      :: rest
    /\ 0 < length p1 /\ 0 < length p2 /\ 0 < length p3.
Proof.
  refine (@inference_needs_documents Scenario.calm Scenario.cfg2
            Scenario.event [] (GeminiClient (Ok tt)) _ eq_refl).
  vm_compute. do 4 right. left. reflexivity.
Defined.

(** X10.  In app2-multi-pdf.py the acknowledgment is not optional: when
    its push raises [e], the run consists of that push and of the reply of
    the error text of [e]; nothing is requested from Drive or from Gemini,
    and the handler ends as the reply ends. *)
Theorem failed_ack_aborts (w : World) (cfg : App2.Config)
    (event : MessageEvent) (h : list Event) (e : Exc) :
  line_push w h (user_id event) processing_text = Raise e ->
  trace (App2.handle_text_message cfg event) w h
  = [PushMessage (user_id event) processing_text (Raise e);
     ReplyMessage (reply_token event) (request_error_prefix ++ exc_str e)
                  (result (App2.handle_text_message cfg event) w h)].
Proof.
  intros Hp. unfold trace, result.
  destruct (App2.handle_text_message cfg event w h) as [r es] eqn:Hrun.
  unfold App2.handle_text_message in Hrun. cbn [fst snd].
  inv_run;
    match goal with
    | H : line_push _ _ _ _ = _ |- _ =>
        rewrite Hp in H; first [discriminate H | injection H as <-]
    end.
  all: try match goal with
       | H : line_reply _ _ _ _ = _ |- _ => now rewrite <- H
       end.
Qed.

Lemma failed_ack_aborts_witness :
  trace (App2.handle_text_message Scenario.cfg2 Scenario.event)
        Scenario.push_refused []
  = [PushMessage (user_id Scenario.event) processing_text
                 (Raise Scenario.boom);
     ReplyMessage (reply_token Scenario.event)
                  (request_error_prefix ++ exc_str Scenario.boom)
                  (result (App2.handle_text_message Scenario.cfg2
                                                    Scenario.event)
                          Scenario.push_refused [])].
Proof.
  exact (@failed_ack_aborts Scenario.push_refused Scenario.cfg2
           Scenario.event [] Scenario.boom eq_refl).
Defined.

(** X11.  In app.py the download is the first call of every run, and a
    push is made only after it returned: a run with a push begins with the
    download returning the document, followed by the acknowledgment to the
    user of the event, and has no other push. *)
Theorem fetch_before_ack (w : World) (cfg : App.Config)
    (event : MessageEvent) (h : list Event) :
  (exists d rest,
      trace (App.handle_text_message cfg event) w h
      = DriveDownload (App.GOOGLE_DRIVE_PDF_ID cfg) d :: rest)
  /\ (filter is_push (trace (App.handle_text_message cfg event) w h) = []
      \/ exists pdf r rest,
           trace (App.handle_text_message cfg event) w h
           = DriveDownload (App.GOOGLE_DRIVE_PDF_ID cfg) (Ok pdf)
             :: PushMessage (user_id event) processing_text r :: rest
           /\ filter is_push rest = []).
Proof.
  unfold trace.
  destruct (App.handle_text_message cfg event w h) as [r es] eqn:Hrun.
  unfold App.handle_text_message in Hrun. cbn [snd].
  assert (Hnp : forall es', forallb is_inference es' = true ->
                            filter is_push es' = []).
  { induction es' as [|c es' IH]; [reflexivity|]. cbn [forallb].
    intros H. apply andb_true_iff in H as [Hc Hes].
    destruct c; try discriminate Hc; exact (IH Hes). }
  inv_run; use_components; cbn [app];
    (split; [eexists _, _; reflexivity|]).
  all: try (left; reflexivity).
  all: right; eexists _, _, _; (split; [reflexivity|]).
  all: repeat rewrite filter_app;
    repeat match goal with
           | H : forallb is_inference ?es = true |- _ =>
               rewrite (Hnp es H)
           end; reflexivity.
Qed.

(** ** From the outcome of [generate_content] to the messages *)

Lemma send_response_short event R w h :
  length R <= App2.length_limit ->
  App2.send_response event R w h
  = (line_reply w h (reply_token event) R,
     [ReplyMessage (reply_token event) R
                   (line_reply w h (reply_token event) R)]).
Proof.
  intros Hlen. unfold App2.send_response.
  destruct (Nat.ltb_spec App2.length_limit (length R)) as [Hlt|_]; [lia|].
  reflexivity.
Qed.

(** After [generate_content], app2-multi-pdf.py runs the delivery block
    on the text made from the outcome of the call, and replies the error
    text when the delivery raises. *)
Lemma after_generate2 w cfg event h parts q g r es :
  App2.handle_text_message cfg event w h = (r, es) ->
  In (GenerateContent parts q g) es ->
  exists es0 r1 es1,
    App2.send_response event (answer_of2 g) w
      (h ++ es0 ++ [GenerateContent parts q g]) = (r1, es1)
    /\ ((exists u, r1 = Ok u /\ r = Ok tt
                   /\ es = es0 ++ GenerateContent parts q g :: es1)
        \/ (exists e, r1 = Raise e
                      /\ es = es0 ++ GenerateContent parts q g :: es1
                              ++ [ReplyMessage (reply_token event)
                                    (request_error_prefix ++ exc_str e) r])).
Proof.
  intros Hrun Hin. unfold App2.handle_text_message in Hrun.
  inv_run.
  all: try match goal with
       | Hs : App2.send_response _ _ _ _ = (_, ?es_s),
         Hp : App2.process_with_gemini _ _ _ _ _ _ = (_, ?es_p) |- _ =>
           pose proof (send_response_events _ _ _ _ Hs) as Hdel;
           pose proof (process_with_gemini_generate2 _ _ _ _ _ _ Hp)
             as [Hnone | (pre & parts' & g' & Hes & Hpre & Hr)]
       end.
  all: try (use_components; split_in Hin;
            first [ discriminate Hin
                  | not_in_trace
                  | match goal with
                    | Hn : filter is_generate ?l = [], Hi : In ?c ?l |- _ =>
                        assert (Hf : In c (filter is_generate l))
                          by (apply filter_In; split; [exact Hi | reflexivity]);
                        rewrite Hn in Hf; destruct Hf
                    end ]).
  all: injection Hr as ->; subst;
    assert (Hg : GenerateContent parts q g
                 = GenerateContent parts' (text event) g')
      by (split_in Hin;
          first [ discriminate Hin
                | not_in_trace
                | symmetry; exact Hin
                | assert (Hf : In (GenerateContent parts q g)
                                  (filter is_generate pre))
                    by (apply filter_In; split; [exact Hin | reflexivity]);
                  rewrite Hpre in Hf; destruct Hf ]);
    injection Hg as -> -> ->;
    repeat match goal with u : unit |- _ => destruct u end.
  - eexists (_ :: _ :: _ :: _ :: pre), (Ok tt), _. split.
    + rewrite <- Hrun. f_equal. repeat rewrite <- app_assoc. reflexivity.
    + left. exists tt. repeat split.
      repeat rewrite <- app_assoc. reflexivity.
  - eexists (_ :: _ :: _ :: _ :: pre), (Raise _), _. split.
    + match goal with
      | Hs : App2.send_response _ _ _ _ = _ |- _ => rewrite <- Hs
      end.
      f_equal. repeat rewrite <- app_assoc. reflexivity.
    + right. eexists. split; [reflexivity|].
      repeat rewrite <- app_assoc. reflexivity.
Qed.



Lemma timeout_text_short : length App2.timeout_text <= App2.length_limit.
Proof. apply Nat.leb_le. vm_compute. reflexivity. Qed.

(** X13.  In app2-multi-pdf.py a timeout of [generate_content] reaches the
    user as an ordinary answer: the next call of the run is the reply of
    the fixed timeout text under the reply token, in one piece; when that
    reply is delivered the run ends and the handler returns, and when it
    raises [e'] the run ends with the reply of the error text of [e']. *)
Theorem timeout_is_replied (w : World) (cfg : App2.Config)
    (event : MessageEvent) (h : list Event) (parts : list Part) (q : str)
    (e : Exc) :
  In (GenerateContent parts q (Raise e))
     (trace (App2.handle_text_message cfg event) w h) ->
  isTimeoutException e = true ->
  exists es0 r es2,
    trace (App2.handle_text_message cfg event) w h
    = es0 ++ GenerateContent parts q (Raise e)
      :: ReplyMessage (reply_token event) App2.timeout_text r :: es2
    /\ match r with
       | Ok _ =>
           es2 = []
           /\ result (App2.handle_text_message cfg event) w h = Ok tt
       | Raise e' =>
           es2 = [ReplyMessage (reply_token event)
                    (request_error_prefix ++ exc_str e')
                    (result (App2.handle_text_message cfg event) w h)]
       end.
Proof.
  unfold trace, result.
  destruct (App2.handle_text_message cfg event w h) as [r es] eqn:Hrun.
  cbn [fst snd]. intros Hin Ht.
  destruct (@after_generate2 _ _ _ _ _ _ _ _ _ Hrun Hin)
    as (es0 & r1 & es1 & Hs & Hcases).
  cbn [answer_of2] in Hs. rewrite Ht in Hs.
  rewrite (@send_response_short _ _ _ _ timeout_text_short) in Hs.
  injection Hs as Hr1 <-.
  destruct Hcases as [(u & -> & -> & ->) | (e' & -> & ->)].
  - eexists es0, _, []. rewrite Hr1. split; [reflexivity | now split].
  - eexists es0, _, [_]. rewrite Hr1. split; reflexivity.
Qed.

Lemma timeout_is_replied_witness :
  exists es0 r es2,
    trace (App2.handle_text_message Scenario.cfg2 Scenario.event)
          Scenario.gemini_timeout []
    = es0
      ++ GenerateContent [PartFile 7%N; PartFile 7%N; PartFile 7%N]
           (text Scenario.event) (Raise Scenario.timed_out)
      :: ReplyMessage (reply_token Scenario.event) App2.timeout_text r :: es2.
Proof.
  destruct (@timeout_is_replied
              Scenario.gemini_timeout Scenario.cfg2 Scenario.event []
              [PartFile 7%N; PartFile 7%N; PartFile 7%N] (text Scenario.event)
              Scenario.timed_out)
    as (es0 & r & es2 & Htr & _).
  - apply (nth_error_In _ 8). vm_compute. reflexivity.
  - reflexivity.
  - exists es0, r, es2. exact Htr.
Defined.

(** X14.  In app2-multi-pdf.py a push that raises [e] is followed by the
    reply of the error text of [e], which ends the run, and it is either
    the acknowledgment, the first call of the run, or the push of a chunk
    of the answer; in the second case that error reply is made under the
    reply token under which chunk 0 was already delivered. *)
Theorem failed_push_error_reply (w : World) (cfg : App2.Config)
    (event : MessageEvent) (h : list Event) (to t : str) (e : Exc) :
  In (PushMessage to t (Raise e))
     (trace (App2.handle_text_message cfg event) w h) ->
  let error_reply :=
    ReplyMessage (reply_token event) (request_error_prefix ++ exc_str e)
                 (result (App2.handle_text_message cfg event) w h) in
  trace (App2.handle_text_message cfg event) w h
  = [PushMessage (user_id event) processing_text (Raise e); error_reply]
  \/ exists es0 chunk0,
       trace (App2.handle_text_message cfg event) w h
       = es0 ++ [PushMessage (user_id event) t (Raise e); error_reply]
       /\ In (ReplyMessage (reply_token event) chunk0 (Ok tt)) es0.
Proof.
  unfold trace, result.
  destruct (App2.handle_text_message cfg event w h) as [r es] eqn:Hrun.
  unfold App2.handle_text_message in Hrun. cbn [fst snd]. intros Hin.
  inv_run.
  all: repeat match goal with
       | Hp : App2.process_with_gemini _ _ _ _ _ _ = (_, _) |- _ =>
           let Hs := fresh "Hs" in
           apply process_with_gemini_returns2 in Hp as [[? Hs] ?];
           first [discriminate Hs | injection Hs as <- | idtac]
       end.
  all: try match goal with
       | Hs : App2.send_response _ _ _ _ = (_, _) |- _ =>
           apply send_response_run in Hs
             as (c0 & rest & Hc
                 & [[? ->] | [(e1 & ? & ->) | (e1 & sent & ch & rest' & ? & ? & ->)]])
       end.
  all: try discriminate.
  all: split_in Hin; try discriminate Hin; try not_in_trace.
  all: try (apply in_map_iff in Hin as (? & Heq & _); discriminate Heq).
  - match goal with H : Raise _ = Raise _ |- _ => injection H as -> end.
    injection Hin as <- <- <-.
    right. eexists (_ :: _ :: _ :: _ :: x3 ++ _ :: map _ sent), c0. split.
    + repeat rewrite <- app_assoc. cbn [app]. repeat rewrite <- app_assoc.
      reflexivity.
    + do 4 right. apply in_or_app. right. left. reflexivity.
  - injection Hin as <- <- <-. left. reflexivity.
Qed.

Lemma failed_push_error_reply_witness :
  exists es0 chunk0,
    trace (App2.handle_text_message Scenario.cfg2 Scenario.event)
          Scenario.later_push_refused []
    = es0
      ++ [PushMessage (user_id Scenario.event)
            (firstn 4000 (skipn 4000 Scenario.nine_thousand_a))
            (Raise Scenario.boom);
          ReplyMessage (reply_token Scenario.event)
            (request_error_prefix ++ exc_str Scenario.boom)
            (result (App2.handle_text_message Scenario.cfg2 Scenario.event)
                    Scenario.later_push_refused [])]
    /\ In (ReplyMessage (reply_token Scenario.event) chunk0 (Ok tt)) es0.
Proof.
  destruct (@failed_push_error_reply
              Scenario.later_push_refused Scenario.cfg2 Scenario.event []
              (user_id Scenario.event)
              (firstn 4000 (skipn 4000 Scenario.nine_thousand_a))
              Scenario.boom)
    as [Hack | Hchunk].
  - apply (nth_error_In _ 10). vm_compute. reflexivity.
  - exfalso. apply (f_equal (@length Event)) in Hack.
    vm_compute in Hack. discriminate Hack.
  - exact Hchunk.
Defined.

(** X15.  In app.py what [generate_content] does reaches the user as the
    next call of the run, a reply under the reply token: the response text
    when the call returned, the generic error text followed by [str(e)]
    when it raised [e]; when that reply is delivered the run ends and the
    handler returns, and when it raises [e'] the run ends with the reply of
    the error text of [e']. *)
Theorem generate_outcome_is_replied (w : World) (cfg : App.Config)
    (event : MessageEvent) (h : list Event) (parts : list Part) (q : str)
    (g : Result str) :
  In (GenerateContent parts q g)
     (trace (App.handle_text_message cfg event) w h) ->
  exists es0 r es2,
    trace (App.handle_text_message cfg event) w h
    = es0 ++ GenerateContent parts q g
      :: ReplyMessage (reply_token event)
           match g with
           | Ok response_text => response_text
           | Raise e => query_error_prefix ++ exc_str e
           end r
      :: es2
    /\ match r with
       | Ok _ =>
           es2 = []
           /\ result (App.handle_text_message cfg event) w h = Ok tt
       | Raise e' =>
           es2 = [ReplyMessage (reply_token event)
                    (request_error_prefix ++ exc_str e')
                    (result (App.handle_text_message cfg event) w h)]
       end.
Proof.
  unfold trace, result.
  destruct (App.handle_text_message cfg event w h) as [r es] eqn:Hrun.
  unfold App.handle_text_message in Hrun. cbn [fst snd]. intros Hin.
  inv_run.
  all: try match goal with
       | Hp : App.process_with_gemini _ _ _ _ = (_, ?es_p) |- _ =>
           pose proof (process_with_gemini_generate1 _ _ _ _ Hp)
             as [Hnone | (pre & parts' & g' & Hes & Hpre & Hr)];
           apply process_with_gemini_returns1 in Hp as [_ Hinf]
       end.
  all: try (split_in Hin;
            first [ discriminate Hin
                  | not_in_trace
                  | match goal with
                    | Hn : filter is_generate ?l = [], Hi : In ?c ?l |- _ =>
                        assert (Hf : In c (filter is_generate l))
                          by (apply filter_In; split; [exact Hi | reflexivity]);
                        rewrite Hn in Hf; destruct Hf
                    end ]).
  all: try discriminate Hr.
  all: injection Hr as ->; subst;
    assert (Hg : GenerateContent parts q g
                 = GenerateContent parts' (text event) g')
      by (split_in Hin;
          first [ discriminate Hin
                | symmetry; exact Hin
                | assert (Hf : In (GenerateContent parts q g)
                                  (filter is_generate pre))
                    by (apply filter_In; split; [exact Hin | reflexivity]);
                  rewrite Hpre in Hf; destruct Hf ]);
    injection Hg as -> -> ->;
    repeat match goal with u : unit |- _ => destruct u end.
  - eexists (_ :: _ :: pre), (Ok tt), []. split; [|now split].
    cbn [app]. repeat rewrite <- app_assoc. reflexivity.
  - eexists (_ :: _ :: pre), (Raise _), [_]. split; [|reflexivity].
    cbn [app]. repeat rewrite <- app_assoc. reflexivity.
Qed.

Lemma generate_outcome_is_replied_witness :
  exists es0 r es2,
    trace (App.handle_text_message Scenario.cfg1 Scenario.event)
          Scenario.gemini_down []
    = es0
      ++ GenerateContent [PartBytes Scenario.pdf] (text Scenario.event)
           (Raise Scenario.boom)
      :: ReplyMessage (reply_token Scenario.event)
           (query_error_prefix ++ exc_str Scenario.boom) r
      :: es2.
Proof.
  destruct (@generate_outcome_is_replied
              Scenario.gemini_down Scenario.cfg1 Scenario.event []
              [PartBytes Scenario.pdf] (text Scenario.event)
              (Raise Scenario.boom))
    as (es0 & r & es2 & Htr & _).
  - apply (nth_error_In _ 3). vm_compute. reflexivity.
  - exists es0, r, es2. exact Htr.
Defined.

(** ** The download in detail *)

(** While the position of the stream is at its end, a write appends. *)
Lemma write_at_end (f : BytesIO.t) (b : bytes) :
  BytesIO.position f = length (BytesIO.buffer f) ->
  BytesIO.write f b
  = BytesIO.mk (BytesIO.buffer f ++ b) (length (BytesIO.buffer f ++ b)).
Proof.
  intros Hpos. unfold BytesIO.write. rewrite Hpos, Nat.sub_diag.
  cbn [repeat]. rewrite app_nil_r, firstn_all, length_app.
  rewrite skipn_all2 by lia. now rewrite app_nil_r.
Qed.

(** The loop keeps the position at the end of the stream, so that the
    chunks are laid out one after the other. *)
Lemma next_chunks_run (transfer : Transfer) (f : BytesIO.t) :
  BytesIO.position f = length (BytesIO.buffer f) ->
  next_chunks transfer f
  = match Download.breaks transfer with
    | None =>
        let received :=
          BytesIO.buffer f ++ concat (Download.sent_chunks transfer) in
        Ok (BytesIO.mk received (length received))
    | Some e => Raise e
    end.
Proof.
  revert f. induction transfer as [chunk|chunk rest IH|e]; intros f Hpos;
    cbn [next_chunks Download.breaks Download.sent_chunks concat].
  - rewrite app_nil_r. f_equal. now apply write_at_end.
  - rewrite IH by (rewrite write_at_end by exact Hpos; reflexivity).
    rewrite write_at_end by exact Hpos. cbn [BytesIO.buffer].
    now rewrite <- app_assoc.
  - reflexivity.
Qed.

(** X16.  [get_pdf_from_drive] in detail.  When no call of the transfer
    raises, app.py returns the chunks received, in order and with nothing
    between them, and app2-multi-pdf.py returns a stream that holds the
    same bytes and is rewound: its position is 0, so that reading it gives
    the whole file, where the stream as the loop left it had nothing left
    to read; the size that the emptiness test looks at is the total of the
    chunk sizes.  When a call raises, both functions raise that exception
    and return nothing of what was received. *)
Theorem download_outcome (transfer : Transfer) :
  match Download.breaks transfer with
  | None =>
      let file := concat (Download.sent_chunks transfer) in
      Download.app_get_pdf_from_drive transfer = Ok file
      /\ exists written,
           next_chunks transfer BytesIO.new = Ok written
           /\ BytesIO.read written = []
           /\ Download.app2_get_pdf_from_drive transfer
              = Ok (BytesIO.seek written 0)
           /\ BytesIO.position (BytesIO.seek written 0) = 0
           /\ BytesIO.read (BytesIO.seek written 0) = file
           /\ BytesIO.nbytes (BytesIO.seek written 0)
              = list_sum (map (@length byte) (Download.sent_chunks transfer))
  | Some e =>
      Download.app_get_pdf_from_drive transfer = Raise e
      /\ Download.app2_get_pdf_from_drive transfer = Raise e
  end.
Proof.
  unfold Download.app_get_pdf_from_drive, Download.app2_get_pdf_from_drive.
  rewrite (next_chunks_run transfer BytesIO.new eq_refl).
  destruct (Download.breaks transfer) as [e|]; [now split|].
  cbn [BytesIO.new BytesIO.buffer app]. cbv zeta.
  split; [reflexivity|]. eexists. split; [reflexivity|].
  unfold BytesIO.read, BytesIO.seek, BytesIO.nbytes.
  cbn [BytesIO.buffer BytesIO.position skipn].
  repeat split.
  - apply skipn_all.
  - induction (Download.sent_chunks transfer) as [|c cs IH]; [reflexivity|].
    cbn [concat map list_sum]. now rewrite length_app, IH.
Qed.

(** A file that arrives in three chunks, the second one empty. *)
Example download_in_three_chunks :
  Download.app_get_pdf_from_drive
    (More [x25; x50] (More [] (Done [x44; x46])))
  = Ok Scenario.pdf
  /\ Download.app2_get_pdf_from_drive
       (More [x25; x50] (More [] (Done [x44; x46])))
     = Ok (BytesIO.mk Scenario.pdf 0).
Proof. split; reflexivity. Qed.

(** X17.  The emptiness test of app2-multi-pdf.py, [nbytes == 0] on what
    [get_pdf_from_drive] returned, holds exactly when every chunk of the
    transfer was empty; it does not depend on the position of the
    stream. *)
Theorem empty_download (transfer : Transfer) (file_content : BytesIO.t) :
  Download.app2_get_pdf_from_drive transfer = Ok file_content ->
  (BytesIO.nbytes file_content = 0
   <-> Forall (fun chunk => chunk = []) (Download.sent_chunks transfer))
  /\ forall p, BytesIO.nbytes (BytesIO.seek file_content p)
               = BytesIO.nbytes file_content.
Proof.
  unfold Download.app2_get_pdf_from_drive.
  rewrite (next_chunks_run transfer BytesIO.new eq_refl).
  destruct (Download.breaks transfer) as [e|]; [discriminate|].
  cbv zeta. cbn [BytesIO.new BytesIO.buffer app]. intros [= <-].
  split; [|reflexivity].
  unfold BytesIO.nbytes, BytesIO.seek. cbn [BytesIO.buffer].
  induction (Download.sent_chunks transfer) as [|c cs IH]; cbn [concat].
  - split; [constructor | reflexivity].
  - rewrite length_app. split.
    + intros H. constructor.
      * apply length_zero_iff_nil. lia.
      * apply IH. lia.
    + intros H. inversion H as [|? ? -> Hcs]. cbn [length].
      now apply IH.
Qed.

Lemma empty_download_witness :
  BytesIO.nbytes (BytesIO.mk [] 0) = 0
  <-> Forall (fun chunk : bytes => chunk = [])
             (Download.sent_chunks (More [] (Done []))).
Proof.
  exact (proj1 (@empty_download (More [] (Done [])) (BytesIO.mk [] 0)
                  eq_refl)).
Defined.

(** ** The webhook and its handlers together *)

Section Webhook.

Variable handler : MessageEvent -> M unit.
Hypothesis handler_protocol : error_reply_protocol handler.

(** The dispatch of [WebhookHandler_handle]. *)
Local Abbreviation dispatch :=
  (fun ev : WebhookEvent =>
     match ev with
     | TextMessageEvent event => handler event
     | OtherEvent => ret tt
     end).


Lemma reported_app (ev : WebhookEvent) (events : list WebhookEvent)
    (es1 es2 : list Event) :
  reported [ev] es1 -> reported events es2 ->
  reported (ev :: events) (es1 ++ es2).
Proof.
  intros H1 H2 i c e0 Hn Hf.
  destruct (Nat.lt_ge_cases i (length es1)) as [Hlt|Hge].
  - rewrite nth_error_app1 in Hn by exact Hlt.
    destruct (H1 i c e0 Hn Hf) as (event & [Hin|[]] & Hnext).
    exists event. split; [now left|].
    rewrite nth_error_app1; [exact Hnext|].
    apply nth_error_Some. now rewrite Hnext.
  - rewrite nth_error_app2 in Hn by exact Hge.
    destruct (H2 _ c e0 Hn Hf) as (event & Hin & Hnext).
    exists event. split; [now right|].
    rewrite nth_error_app2 by lia.
    now replace (S i - length es1) with (S (i - length es1)) by lia.
Qed.

(** A handler that returns has reported the failure of its run, if there
    was one. *)
Lemma handler_reported (event : MessageEvent) w h es :
  handler event w h = (Ok tt, es) -> reported [TextMessageEvent event] es.
Proof.
  intros Hrun. pose proof (handler_protocol w event h) as Hp.
  unfold result, trace in Hp. rewrite Hrun in Hp.
  cbn [fst snd] in Hp. cbv zeta in Hp.
  intros i c' e' Hn Hf.
  destruct Hp as [[_ Hclean] | (es0 & c & e0 & -> & Hclean & Hc)].
  - apply nth_error_In in Hn.
    pose proof (@forallb_In _ _ _ _ Hclean Hn) as Hs.
    unfold succeeded in Hs. rewrite Hf in Hs. discriminate Hs.
  - destruct (Nat.lt_ge_cases i (length es0)) as [Hlt|Hge].
    + rewrite nth_error_app1 in Hn by exact Hlt.
      apply nth_error_In in Hn.
      pose proof (@forallb_In _ _ _ _ Hclean Hn) as Hs.
      unfold succeeded in Hs. rewrite Hf in Hs. discriminate Hs.
    + rewrite nth_error_app2 in Hn by exact Hge.
      destruct (i - length es0) as [|[|k]] eqn:Ek; cbn [nth_error] in Hn.
      * injection Hn as Hn. subst c'. rewrite Hc in Hf.
        injection Hf as Hf. subst e'.
        exists event. split; [now left|].
        rewrite nth_error_app2 by lia.
        now replace (S i - length es0) with 1 by lia.
      * injection Hn as Hn. subst c'. discriminate Hf.
      * destruct k; discriminate Hn.
Qed.

Lemma dispatch_returns (events : list WebhookEvent) :
  forall w h es,
    for_each events dispatch w h = (Ok tt, es) -> reported events es.
Proof.
  induction events as [|ev events IH]; intros w h es Hrun;
    cbn [for_each] in Hrun.
  - apply ret_inv in Hrun as [_ ->]. intros [|i] c e0 Hn; discriminate Hn.
  - apply bind_inv in Hrun
      as [([] & es1 & es2 & H1 & H2 & ->) | (e' & _ & Hr)];
      [|discriminate Hr].
    apply reported_app; [|exact (IH _ _ _ H2)].
    destruct ev as [event|].
    + exact (@handler_reported _ _ _ _ H1).
    + apply ret_inv in H1 as [_ ->]. intros [|i] c e0 Hn; discriminate Hn.
Qed.


Lemma callback_with_success :
  request_success_protocol (callback_with handler).
Proof.
  intros w body signature h s.
  unfold result, trace, callback_with, bind, try_, WebhookHandler_handle.
  destruct (signature_valid w body signature).
  - destruct (for_each (parse_events w body) dispatch w h)
      as [[[]|e1] es] eqn:Hd; cbn -[request_error_prefix OK].
    + intros [= <-]. rewrite app_nil_r.
      repeat split. exact (@dispatch_returns _ _ _ _ Hd).
    + destruct (isInvalidSignatureError e1); cbn; discriminate.
  - cbn. discriminate.
Qed.

End Webhook.



(** X19.  In both programs, when [callback] returns, it returns "OK", the
    signature validated, and no failure of the request went unreported:
    every LINE or Drive call of the run that raised [e0] is followed at
    once by the reply of the error text of [e0] under the reply token of a
    text message of the payload, and that reply was delivered. *)
Theorem answered_requests (cfg1 : App.Config) (cfg2 : App2.Config) :
  request_success_protocol (App.callback cfg1)
  /\ request_success_protocol (App2.callback cfg2).
Proof.
  split; apply callback_with_success.
  - apply (guarded_try_reply (fun event => _) (guarded_body1 cfg1)).
  - apply (guarded_try_reply (fun event => _) (guarded_body2 cfg2)).
Qed.

Lemma answered_requests_witness :
  result (App2.callback Scenario.cfg2 [] []) Scenario.drive_down [] = Ok OK
  /\ exists event,
       In (TextMessageEvent event) (parse_events Scenario.drive_down [])
       /\ nth_error
            (trace (App2.callback Scenario.cfg2 [] []) Scenario.drive_down [])
            2
          = Some (ReplyMessage (reply_token event)
                    (request_error_prefix ++ exc_str Scenario.boom) (Ok tt)).
Proof.
  assert (Hr : result (App2.callback Scenario.cfg2 [] [])
                      Scenario.drive_down []
               = Ok OK) by (vm_compute; reflexivity).
  split; [exact Hr|].
  destruct (proj2 (answered_requests Scenario.cfg1 Scenario.cfg2)
              Scenario.drive_down [] [] [] OK Hr) as (_ & _ & Hrep).
  apply (Hrep 1 (DriveDownload (App2.GOOGLE_DRIVE_PDF1_ID Scenario.cfg2)
                   (Raise Scenario.boom)) Scenario.boom);
    vm_compute; reflexivity.
Defined.
